(** * MemoryDB parameter group resource: a shallow embedding and its properties

    The embedded program is [internal/service/memorydb/parameter_group.go].
    Go values are modelled as follows:
    - a [*string] is an [option string] ([None] is the nil pointer);
    - an [interface{}] holding a scalar is a [value], a set element is a [raw];
    - a [map[string]T] is a [gmap string T]; iteration over a map ([range]) is
      taken from a [MapOrder], because Go leaves the order unspecified;
    - a type assertion that panics makes the function return [None];
    - the remote service is a set of transition functions on an abstract
      remote state, and every call is recorded in a log. *)

From Stdlib Require Import ZArith Ascii.
From stdpp Require Import gmap strings list fin_maps.

(** ** Go's [strings] package and [aws.StringValue] *)

Module strings.

Definition isUpper (c : ascii) : bool :=
  let n := nat_of_ascii c in (65 <=? n) && (n <=? 90).

Definition isASCII (c : ascii) : bool := nat_of_ascii c <? 128.

Definition lowerByte (c : ascii) : ascii :=
  if isUpper c then ascii_of_nat (nat_of_ascii c + 32) else c.

Fixpoint allASCII (s : string) : bool :=
  match s with
  | EmptyString => true
  | String c s' => isASCII c && allASCII s'
  end.

Fixpoint lowerASCII (s : string) : string :=
  match s with
  | EmptyString => EmptyString
  | String c s' => String (lowerByte c) (lowerASCII s')
  end.

(** [strings.ToLower]: Go lowers a string of ASCII bytes byte by byte; any
    other string goes through the Unicode case tables, which are taken as
    the parameter [unicodeLower]. *)
Definition ToLower (unicodeLower : string → string) (s : string) : string :=
  if allASCII s then lowerASCII s else unicodeLower s.

Fixpoint HasPrefix (s prefix : string) : bool :=
  match prefix, s with
  | EmptyString, _ => true
  | String p prefix', String c s' =>
      if decide (p = c) then HasPrefix s' prefix' else false
  | String _ _, EmptyString => false
  end.

(** [strings.Contains s substr] *)
Fixpoint Contains (s substr : string) : bool :=
  HasPrefix s substr ||
  match s with
  | EmptyString => false
  | String _ s' => Contains s' substr
  end.

(** [strings.ReplaceAll s old new] for one-byte [old] and [new], the only
    way the resource calls it. *)
Fixpoint ReplaceAll (s : string) (old new : ascii) : string :=
  match s with
  | EmptyString => EmptyString
  | String c s' =>
      String (if decide (c = old) then new else c) (ReplaceAll s' old new)
  end.

End strings.

Module aws.
(** [aws.StringValue]: the pointed-to string, or the empty string for nil. *)
Definition StringValue (p : option string) : string := default EmptyString p.
(** [aws.String] *)
Definition String (s : string) : option string := Some s.
End aws.

(** ** Dynamic values of the plugin SDK *)

(** What an [interface{}] field of a declared block can hold. *)
Inductive value :=
| VNil
| VString (s : string)
| VInt (z : Z)
| VBool (b : bool).

(** An element of a [*schema.Set]: a block ([map[string]interface{}]) or any
    other dynamic value. *)
Inductive raw :=
| RMap (m : gmap string value)
| RScalar (v : value).

(** The [interface{}] arguments of [ParameterChanges]. A [*schema.Set] is
    represented by the list its [List()] method returns. *)
Inductive iface :=
| INil
| ISet (l : list raw)
| IOther (v : value).

Global Instance value_eq_dec : EqDecision value.
Proof. solve_decision. Defined.
Global Instance raw_eq_dec : EqDecision raw.
Proof. solve_decision. Defined.
Global Instance iface_eq_dec : EqDecision iface.
Proof. solve_decision. Defined.

(** [x.(string)]: panics ([None]) unless [x] holds a string. A missing map key
    reads as the nil interface. *)
Definition assertString (x : option value) : option string :=
  match x with
  | Some (VString s) => Some s
  | _ => None
  end.

(** [x.(map[string]interface{})] *)
Definition assertMap (x : raw) : option (gmap string value) :=
  match x with
  | RMap m => Some m
  | RScalar _ => None
  end.

(** The assertion of [x] to a schema set, after the nil check of
    [ParameterChanges]. *)
Definition assertSet (x : iface) : option (list raw) :=
  match x with
  | ISet l => Some l
  | _ => None
  end.

(** The comma-ok forms, which never panic. *)
Definition okString (x : option value) : option string := assertString x.
Definition okMap (x : raw) : option (gmap string value) := assertMap x.

(** The block a user declares for one parameter. *)
Definition paramBlock (name val : string) : raw :=
  RMap (<["name" := VString name]> (<["value" := VString val]> ∅)).

(** ** Types of the MemoryDB SDK *)

Module memorydb.

Record ParameterNameValue := {
  ParameterName : option string;
  ParameterValue : option string;
}.

(** [memorydb.Parameter]; the name [Parameter] is reserved in Rocq. *)
Record Param := {
  AllowedValues : option string;
  DataType : option string;
  Description : option string;
  MinimumEngineVersion : option string;
  Name : option string;
  Value : option string;
}.

Record ParameterGroup := {
  ARN : option string;
  GroupDescription : option string;
  Family : option string;
  GroupName : option string;
}.

Definition ErrCodeInvalidParameterGroupStateFault : string :=
  "InvalidParameterGroupStateFault".
Definition ErrCodeParameterGroupNotFoundFault : string :=
  "ParameterGroupNotFoundFault".

Global Instance ParameterNameValue_eq_dec : EqDecision ParameterNameValue.
Proof. solve_decision. Defined.
Global Instance Param_eq_dec : EqDecision Param.
Proof. solve_decision. Defined.

End memorydb.
Import memorydb.

(** ** The differencer: [ParameterChanges] *)

(** Go does not fix the order in which [range] visits a map: an order is any
    enumeration of the map's entries. *)
Record MapOrder := {
  range : gmap string ParameterNameValue → list (string * ParameterNameValue);
  range_perm : ∀ m, range m ≡ₚ map_to_list m;
}.

Definition canonicalOrder : MapOrder :=
  {| range := map_to_list; range_perm := λ m, reflexivity _ |}.

Definition expandParameterNameValue (param : gmap string value)
  : option ParameterNameValue :=
  name ← assertString (param !! "name");
  val ← assertString (param !! "value");
  Some {| ParameterName := aws.String name; ParameterValue := aws.String val |}.

(** The two loops that fill [om] and [nm]: a later entry overwrites an earlier
    one with the same name. *)
Fixpoint expandInto (l : list raw) (m : gmap string ParameterNameValue)
  : option (gmap string ParameterNameValue) :=
  match l with
  | [] => Some m
  | r :: l' =>
      param ← assertMap r;
      key ← assertString (param !! "name");
      pnv ← expandParameterNameValue param;
      expandInto l' (<[key := pnv]> m)
  end.

Definition removeOf (ord : MapOrder) (om nm : gmap string ParameterNameValue)
  : list ParameterNameValue :=
  omap (λ kv, match nm !! kv.1 with
              | None => om !! kv.1
              | Some _ => None
              end) (range ord om).

Definition valueChanged (nv ov : ParameterNameValue) : bool :=
  bool_decide (aws.StringValue (ParameterValue nv) ≠ aws.StringValue (ParameterValue ov)).

Definition addOrUpdateOf (ord : MapOrder) (om nm : gmap string ParameterNameValue)
  : list ParameterNameValue :=
  omap (λ kv, match om !! kv.1 with
              | None => nm !! kv.1
              | Some ov => if valueChanged kv.2 ov then nm !! kv.1 else None
              end) (range ord nm).

Definition ParameterChanges (ord : MapOrder) (o n : iface)
  : option (list ParameterNameValue * list ParameterNameValue) :=
  let o := match o with INil => ISet [] | _ => o end in
  let n := match n with INil => ISet [] | _ => n end in
  os ← assertSet o;
  ns ← assertSet n;
  om ← expandInto os ∅;
  nm ← expandInto ns ∅;
  Some (removeOf ord om nm, addOrUpdateOf ord om nm).

Definition pnvName (p : ParameterNameValue) : string :=
  aws.StringValue (ParameterName p).
Definition pnvValue (p : ParameterNameValue) : string :=
  aws.StringValue (ParameterValue p).

(** ** What the Go runtime and the SDK leave open *)

Record GoRuntime := {
  (** [strings.ToLower] on strings that are not pure ASCII. *)
  unicodeLower : string → string;
  (** The order of [range] over a map. *)
  mapOrder : MapOrder;
  (** [resource.Retry] measures its budget in wall-clock time. The model counts
      it in attempts: [retryAttempts t] is the number of further attempts that
      fit into the timeout [t] (nanoseconds) after the first one. *)
  retryAttempts : Z → nat;
  (** The list a schema set built from the given blocks returns from [List()]
      (the SDK orders and de-duplicates by [ParameterHash]). *)
  setList : list (gmap string value) → list raw;
}.

(** ** Flattening and the user-declared names *)

Definition flattenParameters (rt : GoRuntime) (lst : list Param)
  : list (gmap string value) :=
  omap (λ i, match Value i with
             | Some _ =>
                 Some (<["name" := VString (strings.ToLower (unicodeLower rt)
                                              (aws.StringValue (Name i)))]>
                       (<["value" := VString (aws.StringValue (Value i))]> ∅))
             | None => None
             end) lst.

(** One iteration of the loop of [createUserDefinedParameterMap]: [None] is a
    [continue]. *)
Definition userDefinedEntry (param : raw) : option (string * string) :=
  match okMap param with
  | None => None
  | Some m =>
      match okString (m !! "name") with
      | None => None
      | Some name =>
          if decide (name = "") then None
          else match okString (m !! "value") with
               | None => None
               | Some val =>
                   if decide (val = "") then None else Some (name, val)
               end
      end
  end.

(** [createUserDefinedParameterMap], applied to [d.Get("parameter")]. *)
Definition createUserDefinedParameterMap (declared : list raw)
  : gmap string string :=
  foldl (λ result param,
           match userDefinedEntry param with
           | Some (name, val) => <[name := val]> result
           | None => result
           end) ∅ declared.

(** ** Errors *)

Inductive error :=
| AwsError (code message : string)
| NotFoundError (message : string)
| ErrorString (message : string)
| Wrapped (format arg : string) (inner : error).

Global Instance error_eq_dec : EqDecision error.
Proof. solve_decision. Defined.

(** [errors.As] to an [awserr.Error]: the code and message of the first AWS
    error on the chain. *)
Fixpoint asAwsError (e : error) : option (string * string) :=
  match e with
  | AwsError code message => Some (code, message)
  | Wrapped _ _ inner => asAwsError inner
  | _ => None
  end.

Fixpoint asNotFoundError (e : error) : bool :=
  match e with
  | NotFoundError _ => true
  | Wrapped _ _ inner => asNotFoundError inner
  | _ => false
  end.

Module tfawserr.
Definition ErrCodeEquals (err : option error) (code : string) : bool :=
  match err ≫= asAwsError with
  | Some (c, _) => bool_decide (c = code)
  | None => false
  end.

Definition ErrMessageContains (err : option error) (code message : string) : bool :=
  match err ≫= asAwsError with
  | Some (c, m) => bool_decide (c = code) && strings.Contains m message
  | None => false
  end.
End tfawserr.

Module tfresource.
Definition NotFound (err : option error) : bool :=
  match err with
  | Some e => asNotFoundError e
  | None => false
  end.
End tfresource.

(** ** Diagnostics *)

Inductive fmtArg :=
| FString (s : string)
| FError (e : error).

(** A diagnostic made by [diag.Errorf]: the format and its arguments. *)
Record Diagnostic := { Format : string; Args : list fmtArg }.

Module diag.
(** [diag.Diagnostics]; the nil value is the empty list. *)
Definition Diagnostics := list Diagnostic.
Definition Errorf (format : string) (args : list fmtArg) : Diagnostics :=
  [ {| Format := format; Args := args |} ].
Definition HasError (ds : Diagnostics) : bool :=
  match ds with [] => false | _ => true end.
End diag.

(** ** The remote service *)

Record CreateParameterGroupInput := {
  InDescription : option string;
  InFamily : option string;
  InParameterGroupName : option string;
  InTags : gmap string string;
}.

(** The MemoryDB client: every operation is a transition of the remote state
    [W] that also yields the operation's result. *)
Record MemoryDB (W : Type) := {
  CreateParameterGroupWithContext :
    CreateParameterGroupInput → W → (error + ParameterGroup) * W;
  DeleteParameterGroupWithContext : option string → W → option error * W;
  ResetParameterGroupWithContext :
    option string → list (option string) → W → option error * W;
  UpdateParameterGroupWithContext :
    option string → list ParameterNameValue → W → option error * W;
  DescribeParametersWithContext : option string → W → (error + list Param) * W;
}.
Arguments CreateParameterGroupWithContext {W}.
Arguments DeleteParameterGroupWithContext {W}.
Arguments ResetParameterGroupWithContext {W}.
Arguments UpdateParameterGroupWithContext {W}.
Arguments DescribeParametersWithContext {W}.

(** Functions of the repository that live in other files and packages
    ([find.go], the generated tag helpers, [internal/create],
    [internal/tags]); they are taken as they come. *)
Record Helpers (W : Type) := {
  FindParameterGroupByName : string → W → (error + ParameterGroup) * W;
  ListTags : string → W → (error + gmap string string) * W;
  UpdateTags : string → gmap string string → gmap string string → W → option error * W;
  createName : string → string → string;
  NamePrefixFromName : string → option string;
  MergeTags : gmap string string → gmap string string;
  IgnoreAWS : gmap string string → gmap string string;
  IgnoreConfig : gmap string string → gmap string string;
  RemoveDefaultConfig : gmap string string → gmap string string;
}.
Arguments FindParameterGroupByName {W}.
Arguments ListTags {W}.
Arguments UpdateTags {W}.
Arguments createName {W}.
Arguments NamePrefixFromName {W}.
Arguments MergeTags {W}.
Arguments IgnoreAWS {W}.
Arguments IgnoreConfig {W}.
Arguments RemoveDefaultConfig {W}.

(** [meta]: the client handle a lifecycle callback receives. *)
Record AWSClient (W : Type) := {
  MemoryDBConn : MemoryDB W;
  helpers : Helpers W;
  runtime : GoRuntime;
}.
Arguments MemoryDBConn {W}.
Arguments helpers {W}.
Arguments runtime {W}.

(** Every remote call the resource makes is logged with its request. *)
Inductive Call :=
| CallCreate (input : CreateParameterGroupInput)
| CallDelete (name : option string)
| CallReset (name : option string) (parameterNames : list (option string))
| CallUpdate (name : option string) (parameterNameValues : list ParameterNameValue)
| CallDescribeParameters (name : option string)
| CallFind (name : string)
| CallListTags (arn : string)
| CallUpdateTags (arn : string) (o n : gmap string string).

Record World (W : Type) := { remote : W; calls : list Call }.
Arguments remote {W}.
Arguments calls {W}.

(** Computations that talk to the remote service. *)
Definition M (W A : Type) : Type := World W → A * World W.

Definition ret {W A} (a : A) : M W A := λ w, (a, w).
Definition bind {W A B} (m : M W A) (k : A → M W B) : M W B :=
  λ w, let (a, w') := m w in k a w'.

Notation "x <~ m ;; k" := (bind m (λ x, k))
  (at level 100, m at next level, right associativity).

(** Perform one remote call [op] and log it as [c]. *)
Definition invoke {W A} (c : Call) (op : W → A * W) : M W A :=
  λ w, let (a, r) := op (remote w) in
       (a, {| remote := r; calls := calls w ++ [c] |}).

(** ** Regular expressions and the SDK's validators *)

Module regexp.

(** The fragment of Go's regular expressions the resource uses. The anchors
    [^] and [$] occur only at the two ends of a pattern and are kept as
    flags. Without the multi-line flag [$] matches at the end of the text
    only. *)
Inductive syntax :=
| Eps
| Class (f : ascii → bool)
| Cat (r1 r2 : syntax)
| Alt (r1 r2 : syntax)
| Star (r : syntax).

Definition Plus (r : syntax) : syntax := Cat r (Star r).

Record Regexp := { beginText : bool; body : syntax; endText : bool }.

(** All ways to cut a text in two. *)
Fixpoint splits (s : list ascii) : list (list ascii * list ascii) :=
  match s with
  | [] => [([], [])]
  | c :: s' => ([], s) :: map (λ p, (c :: p.1, p.2)) (splits s')
  end.

Definition isEmpty (s : list ascii) : bool :=
  match s with [] => true | _ => false end.

(** [r*] on [s], where [m] decides [r]: cut off a non-empty piece that [r]
    matches and go on with the rest. Every round shortens the text, so the
    length of the text is fuel enough. *)
Fixpoint starMatch (m : list ascii → bool) (n : nat) (s : list ascii) : bool :=
  match s with
  | [] => true
  | _ :: _ =>
      match n with
      | O => false
      | S n' =>
          existsb (λ p, negb (isEmpty p.1) && m p.1 && starMatch m n' p.2)
                  (splits s)
      end
  end.

(** Does [r] match the whole of [s]? *)
Fixpoint matchAll (r : syntax) (s : list ascii) : bool :=
  match r with
  | Eps => isEmpty s
  | Class f => match s with [c] => f c | _ => false end
  | Cat r1 r2 => existsb (λ p, matchAll r1 p.1 && matchAll r2 p.2) (splits s)
  | Alt r1 r2 => matchAll r1 s || matchAll r2 s
  | Star r0 => starMatch (matchAll r0) (length s) s
  end.

(** The method [MatchString]: some substring matches, where an anchored end
    of the pattern must coincide with that end of the text. *)
Definition MatchString (re : Regexp) (s : string) : bool :=
  existsb (λ p,
    (negb (beginText re) || isEmpty p.1) &&
    existsb (λ q, (negb (endText re) || isEmpty q.2) && matchAll (body re) q.1)
            (splits p.2))
    (splits (String.list_ascii_of_string s)).

Definition inRange (lo hi c : ascii) : bool :=
  (nat_of_ascii lo <=? nat_of_ascii c) && (nat_of_ascii c <=? nat_of_ascii hi).

Definition isChar (x c : ascii) : bool := bool_decide (x = c).

End regexp.
Import regexp.

Module validation.

(** A [schema.SchemaValidateFunc], reduced to the errors it reports (none of
    the validators below reports a warning). *)
Definition SchemaValidateFunc := value → list string.

Definition StringLenBetween (min max : nat) : SchemaValidateFunc :=
  λ i, match i with
       | VString v =>
           if (String.length v <? min) || (max <? String.length v)
           then ["expected length to be in the given range"]
           else []
       | _ => ["expected type to be string"]
       end.

Definition StringMatch (r : Regexp) (message : string) : SchemaValidateFunc :=
  λ i, match i with
       | VString v => if MatchString r v then [] else [message]
       | _ => ["expected type to be string"]
       end.

Definition StringDoesNotMatch (r : Regexp) (message : string) : SchemaValidateFunc :=
  λ i, match i with
       | VString v => if MatchString r v then [message] else []
       | _ => ["expected type to be string"]
       end.

Definition All (validators : list SchemaValidateFunc) : SchemaValidateFunc :=
  λ i, concat (map (λ validator, validator i) validators).

End validation.

(** The pattern [[-][-]]. *)
Definition doubleHyphenRe : Regexp :=
  {| beginText := false;
     body := Cat (Class (isChar "-")) (Class (isChar "-"));
     endText := false |}.

(** The character classes [[a-z0-9-]] and [[a-z0-9]]. *)
Definition lowerAlnum (c : ascii) : bool := inRange "a" "z" c || inRange "0" "9" c.
Definition lowerAlnumHyphen (c : ascii) : bool :=
  inRange "a" "z" c || inRange "0" "9" c || isChar "-" c.

(** The pattern [^[a-z0-9-]*[a-z0-9]$]. *)
Definition nameRe : Regexp :=
  {| beginText := true;
     body := Cat (Star (Class lowerAlnumHyphen)) (Class lowerAlnum);
     endText := true |}.

(** The pattern [^[a-z0-9-]+$]. *)
Definition namePrefixRe : Regexp :=
  {| beginText := true;
     body := Plus (Class lowerAlnumHyphen);
     endText := true |}.

(** [resource.UniqueIDSuffixLength] *)
Definition UniqueIDSuffixLength : nat := 26.

(** The [ValidateFunc] of the schema's ["name"] attribute. *)
Definition nameValidateFunc : validation.SchemaValidateFunc :=
  validation.All
    [ validation.StringLenBetween 1 255;
      validation.StringDoesNotMatch doubleHyphenRe
        "The name may not contain two consecutive hyphens.";
      validation.StringMatch nameRe
        "Only lowercase alphanumeric characters and hyphens allowed. The name may not end with a hyphen." ].

(** The [ValidateFunc] of the schema's ["name_prefix"] attribute. *)
Definition namePrefixValidateFunc : validation.SchemaValidateFunc :=
  validation.All
    [ validation.StringLenBetween 1 (255 - UniqueIDSuffixLength);
      validation.StringDoesNotMatch doubleHyphenRe
        "The name may not contain two consecutive hyphens.";
      validation.StringMatch namePrefixRe
        "Only lowercase alphanumeric characters and hyphens allowed." ].

(** A name is accepted when validation reports no error. *)
Definition nameAccepted (s : string) : bool :=
  match nameValidateFunc (VString s) with [] => true | _ => false end.

(** ** The resource data the host passes to the callbacks *)

Record ResourceData := {
  Id : string;
  IsNewResource : bool;
  d_arn : string;
  d_description : string;
  d_family : string;
  d_name : string;
  d_name_prefix : string;
  (** ["parameter"]: the prior value and the value [d.Get] returns. *)
  d_parameter_old : list raw;
  d_parameter : list raw;
  d_tags : gmap string string;
  d_tags_all_old : gmap string string;
  d_tags_all : gmap string string;
}.

Definition SetId (v : string) (d : ResourceData) : ResourceData :=
  {| Id := v; IsNewResource := IsNewResource d; d_arn := d_arn d;
     d_description := d_description d; d_family := d_family d; d_name := d_name d;
     d_name_prefix := d_name_prefix d; d_parameter_old := d_parameter_old d;
     d_parameter := d_parameter d; d_tags := d_tags d;
     d_tags_all_old := d_tags_all_old d; d_tags_all := d_tags_all d |}.

Definition Set_arn (v : option string) (d : ResourceData) : ResourceData :=
  {| Id := Id d; IsNewResource := IsNewResource d; d_arn := aws.StringValue v;
     d_description := d_description d; d_family := d_family d; d_name := d_name d;
     d_name_prefix := d_name_prefix d; d_parameter_old := d_parameter_old d;
     d_parameter := d_parameter d; d_tags := d_tags d;
     d_tags_all_old := d_tags_all_old d; d_tags_all := d_tags_all d |}.

(** The four string attributes [resourceParameterGroupRead] copies from the
    group it found. *)
Definition Set_group (group : ParameterGroup) (prefix : option string)
    (d : ResourceData) : ResourceData :=
  {| Id := Id d; IsNewResource := IsNewResource d;
     d_arn := aws.StringValue (ARN group);
     d_description := aws.StringValue (GroupDescription group);
     d_family := aws.StringValue (Family group);
     d_name := aws.StringValue (GroupName group);
     d_name_prefix := aws.StringValue prefix;
     d_parameter_old := d_parameter_old d;
     d_parameter := d_parameter d; d_tags := d_tags d;
     d_tags_all_old := d_tags_all_old d; d_tags_all := d_tags_all d |}.

Definition Set_parameter (v : list raw) (d : ResourceData) : ResourceData :=
  {| Id := Id d; IsNewResource := IsNewResource d; d_arn := d_arn d;
     d_description := d_description d; d_family := d_family d; d_name := d_name d;
     d_name_prefix := d_name_prefix d; d_parameter_old := d_parameter_old d;
     d_parameter := v; d_tags := d_tags d;
     d_tags_all_old := d_tags_all_old d; d_tags_all := d_tags_all d |}.

Definition Set_tags (tags tagsAll : gmap string string) (d : ResourceData)
  : ResourceData :=
  {| Id := Id d; IsNewResource := IsNewResource d; d_arn := d_arn d;
     d_description := d_description d; d_family := d_family d; d_name := d_name d;
     d_name_prefix := d_name_prefix d; d_parameter_old := d_parameter_old d;
     d_parameter := d_parameter d; d_tags := tags;
     d_tags_all_old := d_tags_all_old d; d_tags_all := tagsAll |}.

(** ** [resource.Retry] *)

Module resource.

Record RetryError := { Err : error; Retryable : bool }.

Definition RetryableError (err : error) : RetryError :=
  {| Err := err; Retryable := true |}.
Definition NonRetryableError (err : error) : RetryError :=
  {| Err := err; Retryable := false |}.

Definition Second : Z := 1000000000.

(** Call [f] until it succeeds, fails for good, or [n] further attempts
    have been used up; the error of the last attempt is the result. *)
Fixpoint retryLoop {W} (n : nat) (f : M W (option RetryError))
  : M W (option error) :=
  rerr <~ f ;;
  match rerr with
  | None => ret None
  | Some re =>
      if Retryable re then
        match n with
        | O => ret (Some (Err re))
        | S n' => retryLoop n' f
        end
      else ret (Some (Err re))
  end.

Definition Retry {W} (rt : GoRuntime) (timeout : Z) (f : M W (option RetryError))
  : M W (option error) :=
  retryLoop (retryAttempts rt timeout) f.

End resource.

(** ** The lifecycle callbacks and their helpers *)

Section Resource.

Context {W : Type}.
Variable meta : AWSClient W.

Let conn := MemoryDBConn meta.
Let rt := runtime meta.
Let hp := helpers meta.

(** The API is limited to updating no more than 20 parameters at a time. *)
Definition maxParams : nat := 20.

Definition resetParameterGroupParameters (name : string)
    (parameters : list ParameterNameValue) : M W (option error) :=
  let parameterNames := map ParameterName parameters in
  resource.Retry rt (30 * resource.Second)
    (err <~ invoke (CallReset (aws.String name) parameterNames)
                   (ResetParameterGroupWithContext conn (aws.String name) parameterNames) ;;
     match err with
     | Some e =>
         if tfawserr.ErrMessageContains err
              ErrCodeInvalidParameterGroupStateFault " has pending changes"
         then ret (Some (resource.RetryableError e))
         else ret (Some (resource.NonRetryableError e))
     | None => ret None
     end).

Definition modifyParameterGroupParameters (name : string)
    (parameters : list ParameterNameValue) : M W (option error) :=
  invoke (CallUpdate (aws.String name) parameters)
         (UpdateParameterGroupWithContext conn (aws.String name) parameters).

(** The closure [query] of [listParameterGroupParameters]. *)
Definition query (parameterGroupName : string) : M W (error + list Param) :=
  invoke (CallDescribeParameters (aws.String parameterGroupName))
         (DescribeParametersWithContext conn (aws.String parameterGroupName)).

Definition defaultValueByNameOf (defaults : list Param) : gmap string string :=
  foldl (λ m defaultPV,
           <[aws.StringValue (Name defaultPV) := aws.StringValue (Value defaultPV)]> m)
        ∅ defaults.

(** The test of the final loop of [listParameterGroupParameters]. A key that
    is missing from a Go map reads as the empty string. *)
Definition keepParameter (defaultValueByName userDefined : gmap string string)
    (parameter : Param) : bool :=
  let name := aws.StringValue (Name parameter) in
  let currentValue := aws.StringValue (Value parameter) in
  let defaultValue := default "" (defaultValueByName !! name) in
  let isUserDefined := bool_decide (is_Some (userDefined !! name)) in
  bool_decide (currentValue ≠ defaultValue) || isUserDefined.

Definition listParameterGroupParameters (family name : string)
    (userDefined : gmap string string) : M W (error + list Param) :=
  let defaultsFamily := "default." +:+ strings.ReplaceAll family "_" "-" in
  r <~ query defaultsFamily ;;
  match r with
  | inl err => ret (inl (Wrapped "list defaults for family %s: %w" defaultsFamily err))
  | inr defaults =>
      let defaultValueByName := defaultValueByNameOf defaults in
      r <~ query name ;;
      match r with
      | inl err => ret (inl err)
      | inr current =>
          ret (inr (filter (λ parameter,
                              keepParameter defaultValueByName userDefined parameter = true)
                           current))
      end
  end.

Definition resourceParameterGroupRead (d : ResourceData)
  : M W (ResourceData * diag.Diagnostics) :=
  r <~ invoke (CallFind (Id d)) (FindParameterGroupByName hp (Id d)) ;;
  let err := match r with inl e => Some e | inr _ => None end in
  if negb (IsNewResource d) && tfresource.NotFound err then
    ret (SetId "" d, [])
  else
    match r with
    | inl e =>
        ret (d, diag.Errorf "error reading MemoryDB Parameter Group (%s): %s"
                  [FString (Id d); FError e])
    | inr group =>
        let d := Set_group group
                   (NamePrefixFromName hp (aws.StringValue (GroupName group))) d in
        let userDefinedParameters := createUserDefinedParameterMap (d_parameter d) in
        r <~ listParameterGroupParameters (d_family d) (Id d) userDefinedParameters ;;
        match r with
        | inl e =>
            ret (d, diag.Errorf
                      "error listing parameters for MemoryDB Parameter Group (%s): %s"
                      [FString (Id d); FError e])
        | inr parameters =>
            let d := Set_parameter (setList rt (flattenParameters rt parameters)) d in
            r <~ invoke (CallListTags (d_arn d)) (ListTags hp (d_arn d)) ;;
            match r with
            | inl e =>
                ret (d, diag.Errorf
                          "error listing tags for MemoryDB Parameter Group (%s): %s"
                          [FString (Id d); FError e])
            | inr tags =>
                let tags := IgnoreConfig hp (IgnoreAWS hp tags) in
                ret (Set_tags (RemoveDefaultConfig hp tags) tags d, [])
            end
        end
    end.

(** The two batching loops of [resourceParameterGroupUpdate]. Every round
    shortens the list, so [length] of the list is fuel enough. *)
Fixpoint resetLoop (fuel : nat) (name : string) (toRemove : list ParameterNameValue)
  : M W (option error) :=
  match fuel with
  | O => ret None
  | S fuel' =>
      if 0 <? length toRemove then
        let '(paramsToReset, toRemove') :=
          if length toRemove <=? maxParams then (toRemove, [])
          else (take maxParams toRemove, drop maxParams toRemove) in
        err <~ resetParameterGroupParameters name paramsToReset ;;
        match err with
        | Some e => ret (Some e)
        | None => resetLoop fuel' name toRemove'
        end
      else ret None
  end.

Fixpoint modifyLoop (fuel : nat) (name : string) (toAdd : list ParameterNameValue)
  : M W (option error) :=
  match fuel with
  | O => ret None
  | S fuel' =>
      if 0 <? length toAdd then
        let '(paramsToModify, toAdd') :=
          if length toAdd <=? maxParams then (toAdd, [])
          else (take maxParams toAdd, drop maxParams toAdd) in
        err <~ modifyParameterGroupParameters name paramsToModify ;;
        match err with
        | Some e => ret (Some e)
        | None => modifyLoop fuel' name toAdd'
        end
      else ret None
  end.

(** The tail of [resourceParameterGroupUpdate]: tags, then a read. *)
Definition updateTagsAndRead (d : ResourceData)
  : M W (ResourceData * diag.Diagnostics) :=
  if bool_decide (d_tags_all_old d ≠ d_tags_all d) then
    err <~ invoke (CallUpdateTags (d_arn d) (d_tags_all_old d) (d_tags_all d))
                  (UpdateTags hp (d_arn d) (d_tags_all_old d) (d_tags_all d)) ;;
    match err with
    | Some e =>
        ret (d, diag.Errorf "error updating MemoryDB Parameter Group (%s) tags: %s"
                  [FString (Id d); FError e])
    | None => resourceParameterGroupRead d
    end
  else resourceParameterGroupRead d.

(** [None] stands for a panic of [ParameterChanges]. *)
Definition resourceParameterGroupUpdate (d : ResourceData)
  : M W (option (ResourceData * diag.Diagnostics)) :=
  if bool_decide (d_parameter_old d ≠ d_parameter d) then
    match ParameterChanges (mapOrder rt) (ISet (d_parameter_old d)) (ISet (d_parameter d)) with
    | None => ret None
    | Some (toRemove, toAdd) =>
        err <~ resetLoop (length toRemove) (d_name d) toRemove ;;
        match err with
        | Some e =>
            ret (Some (d, diag.Errorf
              "error resetting MemoryDB Parameter Group (%s) parameters to defaults: %s"
              [FString (Id d); FError e]))
        | None =>
            err <~ modifyLoop (length toAdd) (d_name d) toAdd ;;
            match err with
            | Some e =>
                ret (Some (d, diag.Errorf
                  "error modifying MemoryDB Parameter Group (%s) parameters: %s"
                  [FString (Id d); FError e]))
            | None => r <~ updateTagsAndRead d ;; ret (Some r)
            end
        end
    end
  else r <~ updateTagsAndRead d ;; ret (Some r).

Definition resourceParameterGroupCreate (d : ResourceData)
  : M W (option (ResourceData * diag.Diagnostics)) :=
  let tags := MergeTags hp (d_tags d) in
  let name := createName hp (d_name d) (d_name_prefix d) in
  let input := {| InDescription := aws.String (d_description d);
                  InFamily := aws.String (d_family d);
                  InParameterGroupName := aws.String name;
                  InTags := IgnoreAWS hp tags |} in
  r <~ invoke (CallCreate input) (CreateParameterGroupWithContext conn input) ;;
  match r with
  | inl err =>
      ret (Some (d, diag.Errorf "error creating MemoryDB Parameter Group (%s): %s"
                      [FString name; FError err]))
  | inr group => resourceParameterGroupUpdate (Set_arn (ARN group) (SetId name d))
  end.

Definition resourceParameterGroupDelete (d : ResourceData)
  : M W diag.Diagnostics :=
  err <~ invoke (CallDelete (aws.String (Id d)))
                (DeleteParameterGroupWithContext conn (aws.String (Id d))) ;;
  if tfawserr.ErrCodeEquals err ErrCodeParameterGroupNotFoundFault then ret []
  else match err with
       | Some e =>
           ret (diag.Errorf "error deleting MemoryDB Parameter Group (%s): %s"
                  [FString (Id d); FError e])
       | None => ret []
       end.

End Resource.

(** ** Vocabulary of the statements *)

Definition pnvOf (kv : string * string) : ParameterNameValue :=
  {| ParameterName := aws.String kv.1; ParameterValue := aws.String kv.2 |}.

(** The schema set that declares the given name/value pairs. *)
Definition blocks (l : list (string * string)) : list raw :=
  map (λ kv, paramBlock kv.1 kv.2) l.

(** How often a name occurs in an output list. *)
Definition occurrences (k : string) (ps : list ParameterNameValue) : nat :=
  length (filter (λ p, pnvName p = k) ps).

Definition insertAll (l : list (string * string)) (m : gmap string ParameterNameValue)
  : gmap string ParameterNameValue :=
  foldl (λ m kv, <[kv.1 := pnvOf kv]> m) m l.

Definition keyed (m : gmap string ParameterNameValue) : Prop :=
  ∀ k p, m !! k = Some p → pnvName p = k.

Definition changedKey (om nm : gmap string ParameterNameValue) (k : string) : bool :=
  match nm !! k, om !! k with
  | Some nv, Some ov => bool_decide (pnvValue nv ≠ pnvValue ov)
  | Some _, None => true
  | None, _ => false
  end.

(** The declared sets used to exercise the differencer. *)
Definition oldDeclared : list (string * string) :=
  [("activedefrag", "yes"); ("maxmemory-policy", "noeviction"); ("hz", "10")].

Definition newDeclared : list (string * string) :=
  [("maxmemory-policy", "allkeys-lru"); ("hz", "10"); ("timeout", "30")].

(** Does the string hold an upper-case ASCII letter? *)
Fixpoint hasUpper (s : string) : bool :=
  match s with
  | EmptyString => false
  | String c s' => strings.isUpper c || hasUpper s'
  end.

(** The block [flattenParameters] emits for a parameter. *)
Definition flatBlock (rt : GoRuntime) (i : Param) : gmap string value :=
  <["name" := VString (strings.ToLower (unicodeLower rt) (aws.StringValue (Name i)))]>
    (<["value" := VString (aws.StringValue (Value i))]> ∅).

Definition mkParam (name val : option string) : Param :=
  {| AllowedValues := None; DataType := None; Description := None;
     MinimumEngineVersion := None; Name := name; Value := val |}.

(** ** A scripted remote service, used to exercise the callbacks

    The remote state counts the reset requests received so far: the first two
    are refused because the group has pending changes. The group ["gone"]
    does not exist. *)

Definition pendingChanges : error :=
  AwsError ErrCodeInvalidParameterGroupStateFault
           "Parameter group pg has pending changes".

Definition groupNotFound : error :=
  AwsError ErrCodeParameterGroupNotFoundFault "Parameter group gone not found".

Definition accessDenied : error := AwsError "AccessDeniedException" "not authorized".

Definition familyDefaults : list Param :=
  [ mkParam (Some "A") (Some "1"); mkParam (Some "B") (Some "2");
    mkParam (Some "D") (Some "5") ].

Definition groupCurrent : list Param :=
  [ mkParam (Some "A") (Some "1"); mkParam (Some "B") (Some "3");
    mkParam (Some "C") (Some "4"); mkParam (Some "D") (Some "5") ].

Definition scriptedGroup : ParameterGroup :=
  {| ARN := Some "arn:aws:memorydb:::parametergroup/pg";
     GroupDescription := Some "Managed by Terraform";
     Family := Some "memorydb_redis6";
     GroupName := Some "pg" |}.

Definition scriptedConn : MemoryDB nat :=
  {| CreateParameterGroupWithContext := λ _ w, (inr scriptedGroup, w);
     DeleteParameterGroupWithContext := λ name w,
       if decide (name = Some "gone") then (Some groupNotFound, w)
       else if decide (name = Some "locked") then (Some accessDenied, w)
       else (None, w);
     ResetParameterGroupWithContext := λ name _ w,
       if decide (name = Some "locked") then (Some accessDenied, S w)
       else if w <? 2 then (Some pendingChanges, S w) else (None, S w);
     UpdateParameterGroupWithContext := λ name _ w,
       if decide (name = Some "locked") then (Some accessDenied, w) else (None, w);
     DescribeParametersWithContext := λ name w,
       if decide (name = Some "default.memorydb-redis6")
       then (inr familyDefaults, w) else (inr groupCurrent, w) |}.

Definition scriptedHelpers : Helpers nat :=
  {| FindParameterGroupByName := λ name w,
       if decide (name = "gone") then (inl (NotFoundError "not found"), w)
       else (inr scriptedGroup, w);
     ListTags := λ _ w, (inr ∅, w);
     UpdateTags := λ _ _ _ w, (None, w);
     createName := λ name namePrefix, if decide (name = "") then namePrefix else name;
     NamePrefixFromName := λ _, None;
     MergeTags := λ t, t;
     IgnoreAWS := λ t, t;
     IgnoreConfig := λ t, t;
     RemoveDefaultConfig := λ t, t |}.

Definition scriptedRuntime : GoRuntime :=
  {| unicodeLower := λ s, s;
     mapOrder := canonicalOrder;
     retryAttempts := λ timeout, Z.to_nat (timeout / resource.Second);
     setList := map RMap |}.

Definition scriptedClient : AWSClient nat :=
  {| MemoryDBConn := scriptedConn;
     helpers := scriptedHelpers;
     runtime := scriptedRuntime |}.

Definition freshWorld : World nat := {| remote := 0; calls := [] |}.

(** The body of the loop of [createUserDefinedParameterMap]. *)
Definition userDefinedStep (result : gmap string string) (param : raw)
  : gmap string string :=
  match userDefinedEntry param with
  | Some (name, val) => <[name := val]> result
  | None => result
  end.

(** The remote state after [i] reset requests for the same group and names,
    and the answer to the next one. *)
Fixpoint resetStateAfter {W} (conn : MemoryDB W) (name : option string)
    (names : list (option string)) (i : nat) (r : W) : W :=
  match i with
  | O => r
  | S i' =>
      resetStateAfter conn name names i'
        (snd (ResetParameterGroupWithContext conn name names r))
  end.

Definition resetResponse {W} (conn : MemoryDB W) (name : option string)
    (names : list (option string)) (i : nat) (r : W) : option error :=
  fst (ResetParameterGroupWithContext conn name names
         (resetStateAfter conn name names i r)).

(** The conflict [resetParameterGroupParameters] retries on. *)
Definition isPendingChanges (e : error) : bool :=
  tfawserr.ErrMessageContains (Some e)
    ErrCodeInvalidParameterGroupStateFault " has pending changes".

(** The slices that the reset and update calls of a log carried. *)
Definition resetSlices (log : list Call) : list (list (option string)) :=
  omap (λ c, match c with CallReset _ names => Some names | _ => None end) log.

Definition updateSlices (log : list Call) : list (list ParameterNameValue) :=
  omap (λ c, match c with CallUpdate _ params => Some params | _ => None end) log.

(** A remote service that accepts every request. *)
Definition obligingConn : MemoryDB nat :=
  {| CreateParameterGroupWithContext := λ _ w, (inr scriptedGroup, w);
     DeleteParameterGroupWithContext := λ _ w, (None, w);
     ResetParameterGroupWithContext := λ _ _ w, (None, S w);
     UpdateParameterGroupWithContext := λ _ _ w, (None, S w);
     DescribeParametersWithContext := λ name w,
       if decide (name = Some "default.memorydb-redis6")
       then (inr familyDefaults, w) else (inr groupCurrent, w) |}.

Definition obligingClient : AWSClient nat :=
  {| MemoryDBConn := obligingConn;
     helpers := scriptedHelpers;
     runtime := scriptedRuntime |}.

Definition goneData : ResourceData :=
  {| Id := "gone"; IsNewResource := false; d_arn := ""; d_description := "";
     d_family := "memorydb_redis6"; d_name := "gone"; d_name_prefix := "";
     d_parameter_old := []; d_parameter := []; d_tags := ∅;
     d_tags_all_old := ∅; d_tags_all := ∅ |}.

Definition goneNewData : ResourceData :=
  {| Id := "gone"; IsNewResource := true; d_arn := ""; d_description := "";
     d_family := "memorydb_redis6"; d_name := "gone"; d_name_prefix := "";
     d_parameter_old := []; d_parameter := []; d_tags := ∅;
     d_tags_all_old := ∅; d_tags_all := ∅ |}.

Definition lockedData : ResourceData :=
  {| Id := "locked"; IsNewResource := false; d_arn := ""; d_description := "";
     d_family := "memorydb_redis6"; d_name := "locked"; d_name_prefix := "";
     d_parameter_old := []; d_parameter := []; d_tags := ∅;
     d_tags_all_old := ∅; d_tags_all := ∅ |}.

(** The slices the batching loops cut: the head of at most [maxParams] items,
    then the slices of the rest. *)
Fixpoint chunksOf {A} (fuel : nat) (l : list A) : list (list A) :=
  match fuel with
  | O => []
  | S fuel' =>
      match l with
      | [] => []
      | _ :: _ => take maxParams l :: chunksOf fuel' (drop maxParams l)
      end
  end.

(** Declared sets of any size: the names are [a], [aa], [aaa], ... *)
Definition manyDeclared (n : nat) : list (string * string) :=
  map (λ i, (String.string_of_list_ascii (replicate (S i) "a"%char), "1")) (seq 0 n).

Definition manyData : ResourceData :=
  {| Id := "pg"; IsNewResource := false; d_arn := ""; d_description := "";
     d_family := "memorydb_redis6"; d_name := "pg"; d_name_prefix := "";
     d_parameter_old := blocks (manyDeclared 41); d_parameter := blocks (manyDeclared 0);
     d_tags := ∅; d_tags_all_old := ∅; d_tags_all := ∅ |}.

(** Resource data that drops its one declared parameter. *)
Definition retriedData : ResourceData :=
  {| Id := "pg"; IsNewResource := false; d_arn := ""; d_description := "";
     d_family := "memorydb_redis6"; d_name := "pg"; d_name_prefix := "";
     d_parameter_old := blocks [("hz", "10")]; d_parameter := blocks [];
     d_tags := ∅; d_tags_all_old := ∅; d_tags_all := ∅ |}.

(** A computation that issues no reset and no update call. *)
Definition quiet {W A} (m : M W A) : Prop :=
  ∀ w, ∃ new, calls (snd (m w)) = calls w ++ new ∧
              resetSlices new = [] ∧ updateSlices new = [].

(** ** Vocabulary of the further properties *)

(** A set element the differencer can expand: a block whose ["name"] and
    ["value"] are strings. *)
Definition isParamBlock (r : raw) : bool :=
  match r with
  | RMap m =>
      match m !! "name", m !! "value" with
      | Some (VString _), Some (VString _) => true
      | _, _ => false
      end
  | RScalar _ => false
  end.

(** The elements of an argument of [ParameterChanges]; [None] when the
    argument is neither nil nor a set. *)
Definition entriesOf (x : iface) : option (list raw) :=
  match x with
  | INil => Some []
  | ISet l => Some l
  | IOther _ => None
  end.

(** A name prefix is accepted when its validation reports no error. *)
Definition namePrefixAccepted (s : string) : bool :=
  match namePrefixValidateFunc (VString s) with [] => true | _ => false end.

(** A remote service whose listings fail for the family and the group
    ["locked"]. *)
Definition brokenConn : MemoryDB nat :=
  {| CreateParameterGroupWithContext := λ input w,
       if decide (InParameterGroupName input = Some "locked")
       then (inl accessDenied, w) else (inr scriptedGroup, w);
     DeleteParameterGroupWithContext := λ _ w, (None, w);
     ResetParameterGroupWithContext := λ _ _ w, (Some pendingChanges, S w);
     UpdateParameterGroupWithContext := λ name params w,
       if decide (length params < 20) then (Some accessDenied, S w) else (None, S w);
     DescribeParametersWithContext := λ name w,
       if decide (name = Some "default.locked") then (inl accessDenied, w)
       else if decide (name = Some "locked") then (inl accessDenied, w)
       else if decide (name = Some "default.memorydb-redis6")
       then (inr familyDefaults, w) else (inr groupCurrent, w) |}.

Definition brokenClient : AWSClient nat :=
  {| MemoryDBConn := brokenConn;
     helpers := scriptedHelpers;
     runtime := scriptedRuntime |}.

(** Calls that only look at the remote service. *)
Definition isReadCall (c : Call) : bool :=
  match c with
  | CallFind _ | CallDescribeParameters _ | CallListTags _ => true
  | _ => false
  end.

(** The group names that the reset and update calls of a log address. *)
Definition batchTargets (log : list Call) : list (option string) :=
  omap (λ c, match c with
             | CallReset name _ | CallUpdate name _ => Some name
             | _ => None
             end) log.

(** A remote that refuses every reset and update for lack of permission, and
    one that refuses only the updates. *)
Definition deniedConn : MemoryDB nat :=
  {| CreateParameterGroupWithContext := λ _ w, (inl accessDenied, w);
     DeleteParameterGroupWithContext := λ _ w, (None, w);
     ResetParameterGroupWithContext := λ _ _ w, (Some accessDenied, S w);
     UpdateParameterGroupWithContext := λ _ _ w, (Some accessDenied, S w);
     DescribeParametersWithContext := λ name w,
       if decide (name = Some "default.memorydb-redis6")
       then (inr familyDefaults, w) else (inr groupCurrent, w) |}.

Definition deniedClient : AWSClient nat :=
  {| MemoryDBConn := deniedConn; helpers := scriptedHelpers; runtime := scriptedRuntime |}.

Definition updateDeniedConn : MemoryDB nat :=
  {| CreateParameterGroupWithContext := λ _ w, (inr scriptedGroup, w);
     DeleteParameterGroupWithContext := λ _ w, (None, w);
     ResetParameterGroupWithContext := λ _ _ w, (None, S w);
     UpdateParameterGroupWithContext := λ _ _ w, (Some accessDenied, S w);
     DescribeParametersWithContext := λ name w,
       if decide (name = Some "default.memorydb-redis6")
       then (inr familyDefaults, w) else (inr groupCurrent, w) |}.

Definition updateDeniedClient : AWSClient nat :=
  {| MemoryDBConn := updateDeniedConn; helpers := scriptedHelpers;
     runtime := scriptedRuntime |}.

(** Resource data whose declared parameters change from [o] to [n]. *)
Definition changeData (name : string) (isNew : bool) (o n : list (string * string))
  : ResourceData :=
  {| Id := "pg"; IsNewResource := isNew; d_arn := ""; d_description := "";
     d_family := "memorydb_redis6"; d_name := name; d_name_prefix := "";
     d_parameter_old := blocks o; d_parameter := blocks n;
     d_tags := ∅; d_tags_all_old := ∅; d_tags_all := ∅ |}.

(** [ParameterHash]: the hash of ["<name>-<value>-"]. The hash function
    [create.StringHashcode] lives in another package and is a parameter; a
    failed type assertion panics ([None]). *)
Definition ParameterHash (StringHashcode : string → Z) (v : raw) : option Z :=
  m ← assertMap v;
  name ← assertString (m !! "name");
  val ← assertString (m !! "value");
  Some (StringHashcode ((name +:+ "-") +:+ (val +:+ "-"))).

(** Resource data that asks for a generated name. *)
Definition prefixData : ResourceData :=
  {| Id := ""; IsNewResource := true; d_arn := ""; d_description := "Managed by Terraform";
     d_family := "memorydb_redis6"; d_name := ""; d_name_prefix := "tf-";
     d_parameter_old := blocks []; d_parameter := blocks [("hz", "10")];
     d_tags := ∅; d_tags_all_old := ∅; d_tags_all := ∅ |}.

(** The request [resourceParameterGroupCreate] sends. *)
Definition createInput {W} (meta : AWSClient W) (d : ResourceData)
  : CreateParameterGroupInput :=
  {| InDescription := aws.String (d_description d);
     InFamily := aws.String (d_family d);
     InParameterGroupName :=
       aws.String (createName (helpers meta) (d_name d) (d_name_prefix d));
     InTags := IgnoreAWS (helpers meta) (MergeTags (helpers meta) (d_tags d)) |}.

(** * Properties *)

(** ** The differencer *)

Lemma insertAll_cons kv l m :
  insertAll (kv :: l) m = insertAll l (<[kv.1 := pnvOf kv]> m).
Proof. done. Qed.

Lemma expandInto_blocks l m : expandInto (blocks l) m = Some (insertAll l m).
Proof.
  revert m. induction l as [|[k v] l IH]; intros m; [done|].
  rewrite insertAll_cons, <- IH.
  cbn [blocks map expandInto]. unfold paramBlock, expandParameterNameValue. cbn.
  rewrite !lookup_insert_eq. cbn.
  rewrite lookup_insert_ne by done. rewrite lookup_insert_eq. done.
Qed.

Lemma insertAll_lookup_notin l m k :
  k ∉ l.*1 → insertAll l m !! k = m !! k.
Proof.
  revert m. induction l as [|[k' v'] l IH]; intros m Hk; [done|].
  rewrite fmap_cons in Hk. apply not_elem_of_cons in Hk as [Hne Hk].
  rewrite insertAll_cons, IH by done. by rewrite lookup_insert_ne.
Qed.

Lemma insertAll_lookup_in l m k v :
  NoDup l.*1 → (k, v) ∈ l → insertAll l m !! k = Some (pnvOf (k, v)).
Proof.
  revert m. induction l as [|[k' v'] l IH]; intros m Hnd Hin.
  - by apply elem_of_nil in Hin.
  - rewrite fmap_cons in Hnd. apply NoDup_cons in Hnd as [Hk' Hnd].
    rewrite insertAll_cons.
    apply elem_of_cons in Hin as [Heq|Hin].
    + injection Heq as -> ->.
      rewrite insertAll_lookup_notin by done. by rewrite lookup_insert_eq.
    + by apply IH.
Qed.

Lemma insertAll_lookup_Some l m k p :
  insertAll l m !! k = Some p →
  m !! k = Some p ∨ ∃ v, (k, v) ∈ l ∧ p = pnvOf (k, v).
Proof.
  revert m. induction l as [|[k' v'] l IH]; intros m H; [by left|].
  rewrite insertAll_cons in H. apply IH in H as [H|(v & Hin & ->)].
  - rewrite lookup_insert in H. case_decide as Hd.
    + cbn in Hd. subst k'. injection H as <-. right. exists v'. split; [left|done].
    + by left.
  - right. exists v. split; [by right|done].
Qed.

Lemma insertAll_keyed l k p :
  insertAll l ∅ !! k = Some p → pnvName p = k.
Proof.
  intros H. apply insertAll_lookup_Some in H as [H|(v & _ & ->)]; [|done].
  by rewrite lookup_empty in H.
Qed.

Lemma insertAll_lookup_is_Some l m k :
  k ∈ l.*1 → is_Some (insertAll l m !! k).
Proof.
  revert m. induction l as [|[k' v'] l IH]; intros m Hin.
  - by apply elem_of_nil in Hin.
  - rewrite insertAll_cons. rewrite fmap_cons in Hin.
    destruct (decide (k ∈ l.*1)) as [Hl|Hl]; [by apply IH|].
    apply elem_of_cons in Hin as [->|Hin]; [|done].
    rewrite insertAll_lookup_notin by done. cbn. rewrite lookup_insert_eq. eauto.
Qed.

Lemma insertAll_lookup_None l k :
  insertAll l ∅ !! k = None ↔ k ∉ l.*1.
Proof.
  split.
  - intros H Hin. apply (insertAll_lookup_is_Some l ∅) in Hin as [p Hp]. congruence.
  - intros H. by rewrite insertAll_lookup_notin.
Qed.

Lemma elem_of_range ord (m : gmap string ParameterNameValue) k p :
  (k, p) ∈ range ord m ↔ m !! k = Some p.
Proof. rewrite (range_perm ord m). apply elem_of_map_to_list. Qed.

Lemma NoDup_range_keys ord (m : gmap string ParameterNameValue) :
  NoDup (range ord m).*1.
Proof. rewrite (range_perm ord m). apply NoDup_fst_map_to_list. Qed.

Lemma elem_of_range_keys ord (m : gmap string ParameterNameValue) k :
  k ∈ (range ord m).*1 ↔ is_Some (m !! k).
Proof.
  rewrite list_elem_of_fmap. split.
  - intros ([k' p] & -> & Hin). apply elem_of_range in Hin. eauto.
  - intros [p Hp]. exists (k, p). split; [done|]. by apply elem_of_range.
Qed.

Lemma removeOf_names ord om nm :
  keyed om →
  pnvName <$> removeOf ord om nm = filter (λ k, nm !! k = None) (range ord om).*1.
Proof.
  intros Hkey. unfold removeOf.
  assert (Hall : ∀ kv, kv ∈ range ord om → om !! kv.1 = Some kv.2).
  { intros [k p] Hin. by apply elem_of_range in Hin. }
  induction (range ord om) as [|[k p] L IH]; [done|].
  rewrite fmap_cons, filter_cons. cbn [omap list_omap fst].
  pose proof (Hall (k, p) ltac:(left)) as Hk. cbn in Hk.
  rewrite <- IH by (intros kv Hkv; apply Hall; by right).
  destruct (nm !! k) eqn:Hn.
  - rewrite decide_False by done. done.
  - rewrite decide_True by done. rewrite Hk. cbn. f_equal. by apply Hkey.
Qed.

Lemma addOrUpdateOf_names ord om nm :
  keyed nm →
  pnvName <$> addOrUpdateOf ord om nm =
  filter (λ k, changedKey om nm k = true) (range ord nm).*1.
Proof.
  intros Hkey. unfold addOrUpdateOf.
  assert (Hall : ∀ kv, kv ∈ range ord nm → nm !! kv.1 = Some kv.2).
  { intros [k p] Hin. by apply elem_of_range in Hin. }
  induction (range ord nm) as [|[k p] L IH]; [done|].
  rewrite fmap_cons, filter_cons. cbn [omap list_omap fst snd].
  pose proof (Hall (k, p) ltac:(left)) as Hk. cbn in Hk.
  rewrite <- IH by (intros kv Hkv; apply Hall; by right).
  unfold changedKey. rewrite Hk.
  destruct (om !! k) as [ov|] eqn:Ho.
  - unfold valueChanged, pnvValue. case_bool_decide as Hv.
    + rewrite decide_True by done. cbn. f_equal. by apply Hkey.
    + rewrite decide_False by done. done.
  - rewrite decide_True by done. cbn. f_equal. by apply Hkey.
Qed.

Lemma removeOf_elem ord om nm p :
  p ∈ removeOf ord om nm → ∃ k, om !! k = Some p ∧ nm !! k = None.
Proof.
  unfold removeOf. rewrite list_elem_of_omap. intros ([k q] & Hin & H).
  cbn in H. apply elem_of_range in Hin. exists k.
  destruct (nm !! k); [done|]. split; [congruence|done].
Qed.

Lemma addOrUpdateOf_elem ord om nm p :
  p ∈ addOrUpdateOf ord om nm → ∃ k, nm !! k = Some p.
Proof.
  unfold addOrUpdateOf. rewrite list_elem_of_omap. intros ([k q] & Hin & H).
  cbn in H. exists k. destruct (om !! k); [|done].
  by destruct (valueChanged q p0).
Qed.

Lemma occurrences_0 k ps : k ∉ pnvName <$> ps → occurrences k ps = 0.
Proof.
  unfold occurrences. induction ps as [|p ps IH]; [done|].
  rewrite fmap_cons. intros [Hne Hin]%not_elem_of_cons.
  rewrite filter_cons, decide_False by done. by apply IH.
Qed.

Lemma occurrences_1 k ps :
  NoDup (pnvName <$> ps) → k ∈ pnvName <$> ps → occurrences k ps = 1.
Proof.
  unfold occurrences. induction ps as [|p ps IH]; intros Hnd Hin.
  - by apply elem_of_nil in Hin.
  - rewrite fmap_cons in Hnd, Hin. apply NoDup_cons in Hnd as [Hp Hnd].
    rewrite filter_cons. case_decide as Hd.
    + subst k. cbn. f_equal. by apply occurrences_0.
    + apply elem_of_cons in Hin as [->|Hin]; [done|]. by apply IH.
Qed.

Lemma occurrences_pos k ps : 0 < occurrences k ps → k ∈ pnvName <$> ps.
Proof.
  intros H. destruct (decide (k ∈ pnvName <$> ps)) as [|Hn]; [done|].
  rewrite occurrences_0 in H by done. lia.
Qed.

Lemma removeOf_NoDup ord om nm : keyed om → NoDup (pnvName <$> removeOf ord om nm).
Proof.
  intros Hk. rewrite removeOf_names by done.
  apply NoDup_filter, NoDup_range_keys.
Qed.

Lemma addOrUpdateOf_NoDup ord om nm :
  keyed nm → NoDup (pnvName <$> addOrUpdateOf ord om nm).
Proof.
  intros Hk. rewrite addOrUpdateOf_names by done.
  apply NoDup_filter, NoDup_range_keys.
Qed.

Lemma removeOf_name_elem ord om nm k :
  keyed om →
  k ∈ pnvName <$> removeOf ord om nm ↔ is_Some (om !! k) ∧ nm !! k = None.
Proof.
  intros Hk. rewrite removeOf_names by done.
  rewrite list_elem_of_filter, elem_of_range_keys. tauto.
Qed.

Lemma addOrUpdateOf_name_elem ord om nm k :
  keyed nm →
  k ∈ pnvName <$> addOrUpdateOf ord om nm ↔ changedKey om nm k = true.
Proof.
  intros Hk. rewrite addOrUpdateOf_names by done.
  rewrite list_elem_of_filter, elem_of_range_keys.
  split; [tauto|]. intros H. split; [done|].
  unfold changedKey in H. destruct (nm !! k); [eauto|done].
Qed.

Lemma addOrUpdateOf_intro ord om nm k p :
  nm !! k = Some p → changedKey om nm k = true → p ∈ addOrUpdateOf ord om nm.
Proof.
  intros Hn Hc. unfold addOrUpdateOf. apply list_elem_of_omap.
  exists (k, p). split; [by apply elem_of_range|]. cbn.
  unfold changedKey in Hc. rewrite Hn in Hc.
  destruct (om !! k) as [ov|]; [|done].
  unfold valueChanged. fold (pnvValue p). fold (pnvValue ov). by rewrite Hc.
Qed.

Lemma changedKey_declared O N k :
  NoDup O.*1 → NoDup N.*1 →
  changedKey (insertAll O ∅) (insertAll N ∅) k = true ↔
  ∃ v, (k, v) ∈ N ∧ (k ∉ O.*1 ∨ ∃ v', (k, v') ∈ O ∧ v' ≠ v).
Proof.
  intros HO HN. unfold changedKey. split.
  - destruct (insertAll N ∅ !! k) as [nv|] eqn:Hn; [|done].
    apply insertAll_lookup_Some in Hn as [Hn|(v & Hv & ->)];
      [by rewrite lookup_empty in Hn|].
    destruct (insertAll O ∅ !! k) as [ov|] eqn:Ho.
    + apply insertAll_lookup_Some in Ho as [Ho|(v' & Hv' & ->)];
        [by rewrite lookup_empty in Ho|].
      intros Hc%bool_decide_eq_true. exists v. split; [done|]. right.
      exists v'. split; [done|]. intros ->. by apply Hc.
    + intros _. exists v. split; [done|]. left. by apply insertAll_lookup_None.
  - intros (v & Hv & Hcase).
    rewrite (insertAll_lookup_in N ∅ k v) by done.
    destruct Hcase as [Hno|(v' & Hv' & Hne)].
    + apply insertAll_lookup_None in Hno. by rewrite Hno.
    + rewrite (insertAll_lookup_in O ∅ k v') by done.
      apply bool_decide_eq_true. cbn. congruence.
Qed.

(** C1. For name-unique declared sets [O] and [N], [ParameterChanges] returns
    and partitions the names: a name of [O] that is missing from [N] occurs
    exactly once in [remove]; a name of [N] that is new or whose value differs
    from the one in [O] occurs exactly once in [addOrUpdate], with the value of
    [N]; no name occurs in both lists; a name declared in both with the same
    value occurs in neither; and the lists hold nothing else. *)
Theorem ParameterChanges_partition (ord : MapOrder) (O N : list (string * string)) :
  NoDup O.*1 → NoDup N.*1 →
  ∃ remove addOrUpdate,
    ParameterChanges ord (ISet (blocks O)) (ISet (blocks N)) = Some (remove, addOrUpdate) ∧
    (∀ k, k ∈ O.*1 → k ∉ N.*1 → occurrences k remove = 1) ∧
    (∀ k v, (k, v) ∈ N → (k ∉ O.*1 ∨ ∃ v', (k, v') ∈ O ∧ v' ≠ v) →
            occurrences k addOrUpdate = 1 ∧ pnvOf (k, v) ∈ addOrUpdate) ∧
    (∀ k, ¬ (0 < occurrences k remove ∧ 0 < occurrences k addOrUpdate)) ∧
    (∀ k v, (k, v) ∈ O → (k, v) ∈ N →
            occurrences k remove = 0 ∧ occurrences k addOrUpdate = 0) ∧
    (∀ k, 0 < occurrences k remove → k ∈ O.*1 ∧ k ∉ N.*1) ∧
    (∀ k, 0 < occurrences k addOrUpdate →
          ∃ v, (k, v) ∈ N ∧ (k ∉ O.*1 ∨ ∃ v', (k, v') ∈ O ∧ v' ≠ v)).
Proof.
  intros HO HN.
  exists (removeOf ord (insertAll O ∅) (insertAll N ∅)),
         (addOrUpdateOf ord (insertAll O ∅) (insertAll N ∅)).
  assert (Hko : keyed (insertAll O ∅)) by (intros k p; apply insertAll_keyed).
  assert (Hkn : keyed (insertAll N ∅)) by (intros k p; apply insertAll_keyed).
  assert (Hrem : ∀ k, k ∈ pnvName <$> removeOf ord (insertAll O ∅) (insertAll N ∅)
                      ↔ k ∈ O.*1 ∧ k ∉ N.*1).
  { intros k. rewrite removeOf_name_elem, insertAll_lookup_None by done.
    split; intros [H1 H2]; (split; [|done]).
    - destruct (decide (k ∈ O.*1)) as [|Hn]; [done|].
      apply insertAll_lookup_None in Hn. rewrite Hn in H1. by destruct H1.
    - by apply insertAll_lookup_is_Some. }
  assert (Hadd : ∀ k, k ∈ pnvName <$> addOrUpdateOf ord (insertAll O ∅) (insertAll N ∅)
                      ↔ ∃ v, (k, v) ∈ N ∧ (k ∉ O.*1 ∨ ∃ v', (k, v') ∈ O ∧ v' ≠ v)).
  { intros k. rewrite addOrUpdateOf_name_elem by done. by apply changedKey_declared. }
  split; [|repeat split].
  - unfold ParameterChanges. cbn. by rewrite !expandInto_blocks.
  - intros k H1 H2. apply occurrences_1; [by apply removeOf_NoDup|]. by apply Hrem.
  - apply occurrences_1; [by apply addOrUpdateOf_NoDup|]. apply Hadd. eauto.
  - apply (addOrUpdateOf_intro _ _ _ k).
    + by apply insertAll_lookup_in.
    + apply changedKey_declared; eauto.
  - intros k [H1%occurrences_pos H2%occurrences_pos].
    apply Hrem in H1 as [_ H1]. apply Hadd in H2 as (v & Hv & _).
    apply H1, list_elem_of_fmap. by exists (k, v).
  - apply occurrences_0. rewrite Hrem. intros [_ Hn]. apply Hn.
    apply list_elem_of_fmap. by exists (k, v).
  - apply occurrences_0. rewrite Hadd. intros (v' & Hv' & [Hno|(v2 & Hv2 & Hne)]).
    + apply Hno, list_elem_of_fmap. by exists (k, v).
    + assert (v' = v).
      { pose proof (insertAll_lookup_in N ∅ k v' HN Hv') as E1.
        pose proof (insertAll_lookup_in N ∅ k v HN ltac:(done)) as E2.
        rewrite E1 in E2. by injection E2. }
      assert (v2 = v).
      { pose proof (insertAll_lookup_in O ∅ k v2 HO Hv2) as E1.
        pose proof (insertAll_lookup_in O ∅ k v HO ltac:(done)) as E2.
        rewrite E1 in E2. by injection E2. }
      congruence.
  - by apply Hrem, occurrences_pos.
  - by apply Hrem, occurrences_pos.
  - intros k H. by apply Hadd, occurrences_pos.
Qed.

Lemma removeOf_self ord m : removeOf ord m m = [].
Proof.
  unfold removeOf.
  assert (Hall : ∀ kv, kv ∈ range ord m → m !! kv.1 = Some kv.2).
  { intros [k p] Hin. by apply elem_of_range in Hin. }
  induction (range ord m) as [|[k p] L IH]; [done|].
  cbn [omap list_omap fst].
  pose proof (Hall (k, p) ltac:(left)) as Hk. cbn in Hk. rewrite Hk.
  apply IH. intros kv Hkv. apply Hall. by right.
Qed.

Lemma addOrUpdateOf_self ord m : addOrUpdateOf ord m m = [].
Proof.
  unfold addOrUpdateOf.
  assert (Hall : ∀ kv, kv ∈ range ord m → m !! kv.1 = Some kv.2).
  { intros [k p] Hin. by apply elem_of_range in Hin. }
  induction (range ord m) as [|[k p] L IH]; [done|].
  cbn [omap list_omap fst snd].
  pose proof (Hall (k, p) ltac:(left)) as Hk. cbn in Hk. rewrite Hk.
  unfold valueChanged at 1. rewrite bool_decide_eq_false_2 by (intros H; by apply H).
  apply IH. intros kv Hkv. apply Hall. by right.
Qed.

(** C8. Diffing a declared set against itself changes nothing: for every
    declared list of name/value pairs (names need not be unique) and for the
    nil set, [ParameterChanges] returns two empty lists. *)
Theorem ParameterChanges_self (ord : MapOrder) (O : list (string * string)) :
  ParameterChanges ord (ISet (blocks O)) (ISet (blocks O)) = Some ([], []) ∧
  ParameterChanges ord INil INil = Some ([], []) ∧
  ParameterChanges ord INil (ISet []) = Some ([], []).
Proof.
  unfold ParameterChanges, assertSet, mbind, option_bind.
  rewrite !expandInto_blocks. cbn [expandInto].
  by rewrite !removeOf_self, !addOrUpdateOf_self.
Qed.

Lemma NoDup_oldDeclared : NoDup oldDeclared.*1.
Proof.
  apply (bool_decide_unpack _). by vm_compute.
Qed.

Lemma NoDup_newDeclared : NoDup newDeclared.*1.
Proof.
  apply (bool_decide_unpack _). by vm_compute.
Qed.

Lemma ParameterChanges_partition_witness :
  ∃ remove addOrUpdate,
    ParameterChanges canonicalOrder (ISet (blocks oldDeclared)) (ISet (blocks newDeclared))
      = Some (remove, addOrUpdate) ∧
    occurrences "activedefrag" remove = 1 ∧
    occurrences "timeout" addOrUpdate = 1 ∧
    occurrences "hz" remove = 0 ∧ occurrences "hz" addOrUpdate = 0.
Proof.
  destruct (ParameterChanges_partition canonicalOrder oldDeclared newDeclared
              NoDup_oldDeclared NoDup_newDeclared)
    as (remove & addOrUpdate & Heq & Hrem & Hadd & _ & Hsame & _).
  exists remove, addOrUpdate. split; [exact Heq|].
  split.
  { apply Hrem; unfold oldDeclared, newDeclared; cbn [fmap list_fmap fst].
    - apply list_elem_of_here.
    - (intros H; repeat (apply elem_of_cons in H as [H|H]; [discriminate H|]); by apply elem_of_nil in H). }
  split.
  - apply (Hadd "timeout" "30").
    + unfold newDeclared. do 2 apply list_elem_of_further. apply list_elem_of_here.
    + left. unfold oldDeclared. cbn [fmap list_fmap fst].
      intros H; repeat (apply elem_of_cons in H as [H|H]; [discriminate H|]); by apply elem_of_nil in H.
  - apply (Hsame "hz" "10").
    + unfold oldDeclared. do 2 apply list_elem_of_further. apply list_elem_of_here.
    + unfold newDeclared. do 1 apply list_elem_of_further. apply list_elem_of_here.
Defined.

(** ** Flattening *)

Lemma lowerByte_not_upper c : strings.isUpper (strings.lowerByte c) = false.
Proof. by destruct c as [[] [] [] [] [] [] [] []]. Qed.

Lemma lowerASCII_no_upper s : hasUpper (strings.lowerASCII s) = false.
Proof.
  induction s as [|c s IH]; [done|].
  cbn. by rewrite lowerByte_not_upper, IH.
Qed.

Lemma flattenParameters_cons rt i lst :
  flattenParameters rt (i :: lst) =
  match Value i with
  | Some _ => flatBlock rt i :: flattenParameters rt lst
  | None => flattenParameters rt lst
  end.
Proof.
  unfold flattenParameters, flatBlock. cbn [omap list_omap].
  by destruct (Value i).
Qed.

(** C9. What [flattenParameters] surfaces on read: exactly the parameters
    whose value is not nil, in order, each under the name [strings.ToLower]
    makes of its remote name. A name of ASCII bytes comes out without any
    upper-case letter, so ["Maxmemory-Policy"] is surfaced as
    ["maxmemory-policy"]. *)
Theorem flattenParameters_lowercase_and_drop_nil (rt : GoRuntime) (lst : list Param) :
  flattenParameters rt lst = flatBlock rt <$> filter (λ i, Value i ≠ None) lst ∧
  (∀ m, m ∈ flattenParameters rt lst →
        ∃ i, i ∈ lst ∧ Value i ≠ None ∧
             m !! "name" = Some (VString (strings.ToLower (unicodeLower rt)
                                            (aws.StringValue (Name i)))) ∧
             m !! "value" = Some (VString (aws.StringValue (Value i)))) ∧
  (∀ i, i ∈ lst → Value i = None →
        flattenParameters rt (filter (λ j, j ≠ i) lst) = flattenParameters rt lst) ∧
  (∀ s, strings.allASCII s = true →
        hasUpper (strings.ToLower (unicodeLower rt) s) = false) ∧
  flattenParameters rt [mkParam (Some "Maxmemory-Policy") (Some "noeviction");
                        mkParam (Some "hz") None]
    = [ <["name" := VString "maxmemory-policy"]> (<["value" := VString "noeviction"]> ∅) ].
Proof.
  assert (Heq : flattenParameters rt lst
                = flatBlock rt <$> filter (λ i, Value i ≠ None) lst).
  { induction lst as [|i lst IH]; [done|].
    rewrite flattenParameters_cons, filter_cons, IH.
    destruct (Value i) eqn:Hv.
    - rewrite decide_True by done. done.
    - rewrite decide_False by (intros H; by apply H). done. }
  split; [exact Heq|]. split; [|split; [|split]].
  - intros m. rewrite Heq, list_elem_of_fmap.
    intros (i & -> & [Hv Hin]%list_elem_of_filter).
    exists i. unfold flatBlock. split; [done|]. split; [done|].
    rewrite lookup_insert_eq, lookup_insert_ne, lookup_insert_eq; done.
  - intros i _ Hnil. clear Heq. induction lst as [|j lst IH]; [done|].
    rewrite filter_cons, (flattenParameters_cons _ j lst).
    case_decide as Hd.
    + rewrite flattenParameters_cons. by rewrite IH.
    + subst j. by rewrite Hnil.
  - intros s Hs. unfold strings.ToLower. rewrite Hs. apply lowerASCII_no_upper.
  - done.
Qed.

(** ** The effective-state lister *)

Lemma defaultValueByNameOf_absent (defaults : list Param) (k : string) :
  (∀ d, d ∈ defaults → aws.StringValue (Name d) ≠ k) →
  defaultValueByNameOf defaults !! k = None.
Proof.
  unfold defaultValueByNameOf.
  assert (Hgen : ∀ m : gmap string string,
            (∀ d, d ∈ defaults → aws.StringValue (Name d) ≠ k) →
            foldl (λ m defaultPV,
                     <[aws.StringValue (Name defaultPV)
                       := aws.StringValue (Value defaultPV)]> m) m defaults !! k
            = m !! k).
  { induction defaults as [|d ds IH]; intros m H; [done|].
    cbn [foldl]. rewrite IH by (intros d' Hd'; apply H; by right).
    apply lookup_insert_ne, H. by left. }
  intros H. by rewrite Hgen.
Qed.

Lemma keepParameter_spec (defaultValueByName userDefined : gmap string string) p :
  keepParameter defaultValueByName userDefined p = true ↔
  aws.StringValue (Value p)
    ≠ default "" (defaultValueByName !! aws.StringValue (Name p)) ∨
  is_Some (userDefined !! aws.StringValue (Name p)).
Proof.
  unfold keepParameter. rewrite orb_true_iff, !bool_decide_eq_true. done.
Qed.

(** C2. When both listings can be fetched, [listParameterGroupParameters]
    succeeds and returns the current listing filtered, in order: a parameter
    of the current listing is in the result if and only if its current value
    differs from the default recorded for its name (the empty string when the
    defaults do not mention the name) or its name is user-declared. *)
Theorem listParameterGroupParameters_effective {W} (meta : AWSClient W)
    (family name : string) (userDefined : gmap string string) (w : World W)
    (defaults current : list Param) (r1 r2 : W) :
  DescribeParametersWithContext (MemoryDBConn meta)
    (Some ("default." +:+ strings.ReplaceAll family "_" "-")) (remote w)
    = (inr defaults, r1) →
  DescribeParametersWithContext (MemoryDBConn meta) (Some name) r1
    = (inr current, r2) →
  ∃ result w',
    listParameterGroupParameters meta family name userDefined w = (inr result, w') ∧
    remote w' = r2 ∧
    result `sublist_of` current ∧
    (∀ p, p ∈ result ↔
          p ∈ current ∧
          (aws.StringValue (Value p)
             ≠ default "" (defaultValueByNameOf defaults !! aws.StringValue (Name p))
           ∨ is_Some (userDefined !! aws.StringValue (Name p)))) ∧
    (∀ k, (∀ d, d ∈ defaults → aws.StringValue (Name d) ≠ k) →
          default "" (defaultValueByNameOf defaults !! k) = "").
Proof.
  intros Hd Hc.
  eexists _, _. split; [|split; [|split; [|split]]].
  - unfold listParameterGroupParameters, query, invoke, bind, ret, aws.String.
    rewrite Hd. cbn [remote]. rewrite Hc. reflexivity.
  - done.
  - apply sublist_filter.
  - intros p. rewrite list_elem_of_filter, keepParameter_spec. tauto.
  - intros k Hk. by rewrite defaultValueByNameOf_absent.
Qed.

Lemma listParameterGroupParameters_effective_witness :
  ∃ result w',
    listParameterGroupParameters scriptedClient "memorydb_redis6" "pg"
      (createUserDefinedParameterMap (blocks [("A", "1")])) freshWorld
      = (inr result, w') ∧
    mkParam (Some "A") (Some "1") ∈ result ∧
    mkParam (Some "B") (Some "3") ∈ result ∧
    mkParam (Some "C") (Some "4") ∈ result ∧
    mkParam (Some "D") (Some "5") ∉ result.
Proof.
  destruct (listParameterGroupParameters_effective scriptedClient "memorydb_redis6" "pg"
              (createUserDefinedParameterMap (blocks [("A", "1")])) freshWorld
              familyDefaults groupCurrent 0 0 eq_refl eq_refl)
    as (result & w' & Heq & _ & _ & Hin & _).
  exists result, w'. split; [exact Heq|].
  repeat split.
  - apply Hin. split; [apply list_elem_of_here|]. right. vm_compute. eauto.
  - apply Hin. split; [apply list_elem_of_further, list_elem_of_here|].
    left. by vm_compute.
  - apply Hin. split; [do 2 apply list_elem_of_further; apply list_elem_of_here|].
    left. by vm_compute.
  - intros [_ [H|H]]%Hin.
    + by apply H.
    + vm_compute in H. by destruct H.
Defined.

(** ** The user-declared names *)

Lemma createUserDefinedParameterMap_fold declared :
  createUserDefinedParameterMap declared = foldl userDefinedStep ∅ declared.
Proof. done. Qed.

Lemma userDefinedEntry_Some param name val :
  userDefinedEntry param = Some (name, val) ↔
  ∃ m, param = RMap m ∧
       m !! "name" = Some (VString name) ∧ name ≠ "" ∧
       m !! "value" = Some (VString val) ∧ val ≠ "".
Proof.
  unfold userDefinedEntry, okMap, okString, assertMap, assertString. split.
  - destruct param as [m|]; [|done].
    destruct (m !! "name") as [[| n | |]|] eqn:Hn; try done.
    case_decide as Hne; [done|].
    destruct (m !! "value") as [[| v | |]|] eqn:Hv; try done.
    case_decide as Hve; [done|].
    intros [= <- <-]. by exists m.
  - intros (m & -> & -> & Hn & -> & Hv).
    by rewrite !decide_False by done.
Qed.

Lemma userDefinedEntry_None param :
  userDefinedEntry param = None ↔
  match param with
  | RScalar _ => True
  | RMap m =>
      (∀ s, m !! "name" ≠ Some (VString s)) ∨ m !! "name" = Some (VString "") ∨
      (∀ s, m !! "value" ≠ Some (VString s)) ∨ m !! "value" = Some (VString "")
  end.
Proof.
  unfold userDefinedEntry, okMap, okString, assertMap, assertString.
  destruct param as [m|]; [|done].
  destruct (m !! "name") as [[| n | |]|] eqn:Hn;
    try (split; [intros _; left; by intros s|done]).
  case_decide as Hne; [subst n; split; [by right; left|done]|].
  destruct (m !! "value") as [[| v | |]|] eqn:Hv;
    try (split; [intros _; right; right; left; by intros s|done]).
  case_decide as Hve; [subst v; split; [by right; right; right|done]|].
  split; [done|].
  intros [H|[H|[H|H]]].
  - by destruct (H n).
  - by injection H.
  - by destruct (H v).
  - by injection H.
Qed.

Lemma userDefinedFold_lookup declared (m : gmap string string) name val :
  foldl userDefinedStep m declared !! name = Some val →
  m !! name = Some val ∨
  ∃ param, param ∈ declared ∧ userDefinedEntry param = Some (name, val).
Proof.
  revert m. induction declared as [|param declared IH]; intros m H; [by left|].
  cbn [foldl] in H. apply IH in H as [H|(q & Hq & Hentry)].
  - unfold userDefinedStep in H.
    destruct (userDefinedEntry param) as [[n v]|] eqn:He; [|by left].
    rewrite lookup_insert in H. case_decide as Hd; [|by left].
    subst n. injection H as ->. right. exists param. split; [left|done].
  - right. exists q. split; [by right|done].
Qed.

Lemma userDefinedFold_omits declared (m : gmap string string) :
  foldl userDefinedStep m declared =
  foldl userDefinedStep m (filter (λ param, is_Some (userDefinedEntry param)) declared).
Proof.
  revert m. induction declared as [|param declared IH]; intros m; [done|].
  rewrite filter_cons. cbn [foldl]. case_decide as Hd.
  - cbn [foldl]. apply IH.
  - rewrite <- IH. unfold userDefinedStep.
    destruct (userDefinedEntry param); [|done]. destruct Hd. eauto.
Qed.

Lemma userDefinedEntry_paramBlock k v :
  userDefinedEntry (paramBlock k v) =
  if decide (k = "") then None else if decide (v = "") then None else Some (k, v).
Proof.
  unfold userDefinedEntry, paramBlock, okMap, okString, assertMap, assertString.
  rewrite lookup_insert_eq, lookup_insert_ne, lookup_insert_eq by done. done.
Qed.

Lemma listParameterGroupParameters_run {W} (meta : AWSClient W)
    (family name : string) (userDefined : gmap string string) (w : World W)
    (defaults current : list Param) (r1 r2 : W) :
  DescribeParametersWithContext (MemoryDBConn meta)
    (Some ("default." +:+ strings.ReplaceAll family "_" "-")) (remote w)
    = (inr defaults, r1) →
  DescribeParametersWithContext (MemoryDBConn meta) (Some name) r1
    = (inr current, r2) →
  listParameterGroupParameters meta family name userDefined w =
  (inr (filter (λ p, keepParameter (defaultValueByNameOf defaults) userDefined p = true)
               current),
   {| remote := r2;
      calls := (calls w
                ++ [CallDescribeParameters
                      (Some ("default." +:+ strings.ReplaceAll family "_" "-"))])
                ++ [CallDescribeParameters (Some name)] |}).
Proof.
  intros Hd Hc.
  unfold listParameterGroupParameters, query, invoke, bind, ret, aws.String.
  rewrite Hd. cbn [remote calls]. by rewrite Hc.
Qed.

(** C10. [createUserDefinedParameterMap] records a name only for a declared
    block whose name and value are both non-empty strings; every other
    declared entry is skipped without effect. Hence a parameter that is
    declared only with an empty value is not user-declared for the lister:
    when its current value equals the family default it is left out of the
    listing. *)
Theorem createUserDefinedParameterMap_omits_empty {W} (meta : AWSClient W)
    (declared : list raw) :
  (∀ name val, createUserDefinedParameterMap declared !! name = Some val →
     ∃ m, RMap m ∈ declared ∧
          m !! "name" = Some (VString name) ∧ name ≠ "" ∧
          m !! "value" = Some (VString val) ∧ val ≠ "") ∧
  createUserDefinedParameterMap declared =
    createUserDefinedParameterMap
      (filter (λ param, is_Some (userDefinedEntry param)) declared) ∧
  (∀ param, userDefinedEntry param = None ↔
     match param with
     | RScalar _ => True
     | RMap m =>
         (∀ s, m !! "name" ≠ Some (VString s)) ∨ m !! "name" = Some (VString "") ∨
         (∀ s, m !! "value" ≠ Some (VString s)) ∨ m !! "value" = Some (VString "")
     end) ∧
  (∀ (D : list (string * string)) (k : string),
     declared = blocks D → (k, "") ∈ D → (∀ v, (k, v) ∈ D → v = "") →
     createUserDefinedParameterMap declared !! k = None ∧
     ∀ family name (w : World W) defaults current r1 r2 p,
       DescribeParametersWithContext (MemoryDBConn meta)
         (Some ("default." +:+ strings.ReplaceAll family "_" "-")) (remote w)
         = (inr defaults, r1) →
       DescribeParametersWithContext (MemoryDBConn meta) (Some name) r1
         = (inr current, r2) →
       aws.StringValue (Name p) = k →
       aws.StringValue (Value p) = default "" (defaultValueByNameOf defaults !! k) →
       ∃ result w',
         listParameterGroupParameters meta family name
           (createUserDefinedParameterMap declared) w = (inr result, w') ∧
         p ∉ result).
Proof.
  split; [|split; [|split]].
  - intros name val H. rewrite createUserDefinedParameterMap_fold in H.
    apply userDefinedFold_lookup in H as [H|(param & Hin & He)];
      [by rewrite lookup_empty in H|].
    apply userDefinedEntry_Some in He as (m & -> & Hrest). by exists m.
  - rewrite !createUserDefinedParameterMap_fold. apply userDefinedFold_omits.
  - apply userDefinedEntry_None.
  - intros D k -> Hin Hempty.
    assert (Hnone : createUserDefinedParameterMap (blocks D) !! k = None).
    { destruct (createUserDefinedParameterMap (blocks D) !! k) as [val|] eqn:Hl; [|done].
      rewrite createUserDefinedParameterMap_fold in Hl.
      apply userDefinedFold_lookup in Hl as [Hl|(param & Hp & He)];
        [by rewrite lookup_empty in Hl|].
      unfold blocks in Hp. apply list_elem_of_fmap in Hp as ([k' v'] & -> & Hkv).
      cbn [fst snd] in He. rewrite userDefinedEntry_paramBlock in He.
      repeat case_decide; try done. injection He as -> ->.
      by apply Hempty in Hkv. }
    split; [exact Hnone|].
    intros family name w defaults current r1 r2 p Hd Hc Hname Hval.
    eexists _, _. split; [by eapply listParameterGroupParameters_run|].
    rewrite list_elem_of_filter, keepParameter_spec. intros [[H|H] _].
    + apply H. by rewrite Hname.
    + rewrite Hname, Hnone in H. by destruct H.
Qed.

Lemma createUserDefinedParameterMap_omits_empty_witness :
  createUserDefinedParameterMap (blocks [("A", "1"); ("D", "")]) !! "D" = None ∧
  ∃ result w',
    listParameterGroupParameters scriptedClient "memorydb_redis6" "pg"
      (createUserDefinedParameterMap (blocks [("A", "1"); ("D", "")])) freshWorld
      = (inr result, w') ∧
    mkParam (Some "D") (Some "5") ∉ result.
Proof.
  destruct (createUserDefinedParameterMap_omits_empty scriptedClient
              (blocks [("A", "1"); ("D", "")]))
    as (_ & _ & _ & Hcons).
  destruct (Hcons [("A", "1"); ("D", "")] "D" eq_refl) as [Hnone Hhidden].
  - apply list_elem_of_further, list_elem_of_here.
  - intros v Hv. apply elem_of_cons in Hv as [Hv|Hv]; [discriminate Hv|].
    apply elem_of_cons in Hv as [Hv|Hv]; [by injection Hv|].
    by apply elem_of_nil in Hv.
  - split; [exact Hnone|].
    apply (Hhidden "memorydb_redis6" "pg" freshWorld familyDefaults groupCurrent 0 0
             (mkParam (Some "D") (Some "5")) eq_refl eq_refl eq_refl).
    by vm_compute.
Defined.

(** ** Name validation *)

Lemma splits_spec (s a b : list ascii) : In (a, b) (splits s) ↔ s = a ++ b.
Proof.
  revert a b. induction s as [|c s IH]; intros a b.
  - cbn. split.
    + intros [[= <- <-]|[]]. done.
    + intros H. symmetry in H. apply app_eq_nil in H as [-> ->]. by left.
  - cbn [splits In]. rewrite in_map_iff. split.
    + intros [[= <- <-]|([a' b'] & [= <- <-] & Hin)]; [done|].
      apply IH in Hin. by rewrite Hin.
    + destruct a as [|x a]; cbn.
      * intros ->. by left.
      * intros [= <- ->]. right. exists (a, b). split; [done|]. by apply IH.
Qed.

Lemma matchAll_Class f s :
  matchAll (Class f) s = true ↔ ∃ c, s = [c] ∧ f c = true.
Proof.
  destruct s as [|c [|d s]]; cbn; split; try done.
  - by intros (c & [=] & _).
  - intros H. by exists c.
  - by intros (x & [= <-] & H).
  - by intros (x & [=] & _).
Qed.

Lemma matchAll_Cat r1 r2 s :
  matchAll (Cat r1 r2) s = true ↔
  ∃ a b, s = a ++ b ∧ matchAll r1 a = true ∧ matchAll r2 b = true.
Proof.
  cbn [matchAll]. rewrite existsb_exists. split.
  - intros ([a b] & Hin%splits_spec & H%andb_true_iff). by exists a, b.
  - intros (a & b & Hs & H1 & H2). exists (a, b).
    split; [by apply splits_spec|]. cbn. by rewrite H1, H2.
Qed.

Lemma starMatch_Class f n s :
  length s ≤ n → starMatch (matchAll (Class f)) n s = forallb f s.
Proof.
  revert s. induction n as [|n IH]; intros [|c s] Hlen; cbn in Hlen; try done; [lia|].
  cbn [starMatch forallb]. apply eq_true_iff_eq.
  rewrite existsb_exists, andb_true_iff. split.
  - intros ([a b] & Hin%splits_spec & H). cbn [fst snd] in H.
    apply andb_true_iff in H as [[_ Ha]%andb_true_iff Hb].
    apply matchAll_Class in Ha as (x & -> & Hx).
    injection Hin as <- <-. rewrite IH in Hb by lia. done.
  - intros [Hc Hs]. exists ([c], s). split; [by apply splits_spec|].
    cbn. rewrite Hc, IH by lia. done.
Qed.

Lemma matchAll_Star_Class f s :
  matchAll (Star (Class f)) s = forallb f s.
Proof. cbn [matchAll]. by apply starMatch_Class. Qed.

Lemma isEmpty_true (s : list ascii) : isEmpty s = true ↔ s = [].
Proof. by destruct s. Qed.

Lemma MatchString_spec re s :
  MatchString re s = true ↔
  ∃ a b c, String.list_ascii_of_string s = a ++ b ++ c ∧
           (beginText re = true → a = []) ∧ (endText re = true → c = []) ∧
           matchAll (body re) b = true.
Proof.
  unfold MatchString. rewrite existsb_exists. split.
  - intros ([a rest] & Hin%splits_spec & H). cbn [fst snd] in H.
    apply andb_true_iff in H as [Ha H]. apply existsb_exists in H as ([b c] & Hin2 & H).
    apply splits_spec in Hin2. cbn [fst snd] in H. apply andb_true_iff in H as [Hc Hb].
    exists a, b, c. rewrite Hin, Hin2. split; [done|]. split; [|split; [|done]].
    + intros Hbt. rewrite Hbt in Ha. by apply isEmpty_true.
    + intros Het. rewrite Het in Hc. by apply isEmpty_true.
  - intros (a & b & c & Hs & Ha & Hc & Hb). exists (a, b ++ c).
    split; [by apply splits_spec|]. cbn [fst snd]. apply andb_true_iff. split.
    + destruct (beginText re); [|done]. by rewrite Ha.
    + apply existsb_exists. exists (b, c). split; [by apply splits_spec|].
      cbn [fst snd]. rewrite Hb, andb_true_r.
      destruct (endText re); [|done]. by rewrite Hc.
Qed.

Lemma MatchString_doubleHyphenRe s :
  MatchString doubleHyphenRe s = true ↔
  ∃ a c, String.list_ascii_of_string s = a ++ ["-"; "-"]%char ++ c.
Proof.
  rewrite MatchString_spec. unfold doubleHyphenRe. cbn [beginText endText body]. split.
  - intros (a & b & c & Hs & _ & _ & Hb).
    apply matchAll_Cat in Hb as (x & y & -> & Hx & Hy).
    apply matchAll_Class in Hx as (cx & -> & Hcx).
    apply matchAll_Class in Hy as (cy & -> & Hcy).
    apply bool_decide_eq_true in Hcx, Hcy. subst cx cy. by exists a, c.
  - intros (a & c & Hs). exists a, ["-"; "-"]%char, c. done.
Qed.

Lemma lowerAlnum_spec c :
  lowerAlnum c = true ↔ lowerAlnumHyphen c = true ∧ c ≠ "-"%char.
Proof.
  unfold lowerAlnumHyphen. fold (lowerAlnum c). unfold isChar. split.
  - intros H. rewrite H. split; [done|]. intros ->. done.
  - intros [H Hne]. apply orb_true_iff in H as [H|H]; [done|].
    apply bool_decide_eq_true in H. congruence.
Qed.

Lemma MatchString_nameRe s :
  MatchString nameRe s = true ↔
  forallb lowerAlnumHyphen (String.list_ascii_of_string s) = true ∧
  ∃ x, last (String.list_ascii_of_string s) = Some x ∧ x ≠ "-"%char.
Proof.
  rewrite MatchString_spec. unfold nameRe. cbn [beginText endText body]. split.
  - intros (a & b & c & Hs & Ha & Hc & Hb).
    rewrite Ha, Hc, app_nil_r in Hs by done. cbn in Hs. rewrite Hs.
    apply matchAll_Cat in Hb as (l & y & -> & Hl & Hy).
    rewrite matchAll_Star_Class in Hl.
    apply matchAll_Class in Hy as (x & -> & Hx). apply lowerAlnum_spec in Hx as [Hx Hne].
    split.
    + rewrite forallb_app, Hl. cbn. by rewrite Hx.
    + exists x. by rewrite last_snoc.
  - intros [Hall (x & Hlast & Hne)].
    destruct (String.list_ascii_of_string s) as [|x0 l _] using rev_ind; [done|].
    rewrite last_snoc in Hlast. injection Hlast as ->.
    rewrite forallb_app in Hall. apply andb_true_iff in Hall as [Hl Hx].
    cbn in Hx. rewrite andb_true_r in Hx.
    exists [], (l ++ [x]), []. rewrite app_nil_r. split; [done|]. split; [done|].
    split; [done|]. apply matchAll_Cat. exists l, [x]. split; [done|].
    rewrite matchAll_Star_Class. split; [done|].
    apply matchAll_Class. exists x. split; [done|]. by apply lowerAlnum_spec.
Qed.

Lemma length_list_ascii_of_string s :
  length (String.list_ascii_of_string s) = String.length s.
Proof. induction s as [|c s IH]; [done|]. cbn. by rewrite IH. Qed.

Lemma nameAccepted_unfold s :
  nameAccepted s =
  negb ((String.length s <? 1) || (255 <? String.length s))
  && negb (MatchString doubleHyphenRe s) && MatchString nameRe s.
Proof.
  unfold nameAccepted, nameValidateFunc, validation.All, validation.StringLenBetween,
    validation.StringDoesNotMatch, validation.StringMatch.
  cbn [map concat].
  destruct ((String.length s <? 1) || (255 <? String.length s));
    destruct (MatchString doubleHyphenRe s); destruct (MatchString nameRe s); done.
Qed.

(** C6, as the code has it. The name validation accepts a string if and only
    if it has 1 to 255 bytes, holds only lower-case letters, digits and
    hyphens, does not end with a hyphen and has no two hyphens in a row.
    Nothing is asked of the first byte. *)
Theorem nameAccepted_iff (s : string) :
  nameAccepted s = true ↔
  1 ≤ String.length s ≤ 255 ∧
  forallb lowerAlnumHyphen (String.list_ascii_of_string s) = true ∧
  last (String.list_ascii_of_string s) ≠ Some "-"%char ∧
  ¬ ∃ a c, String.list_ascii_of_string s = a ++ ["-"; "-"]%char ++ c.
Proof.
  rewrite nameAccepted_unfold, !andb_true_iff, !negb_true_iff, orb_false_iff.
  rewrite !Nat.ltb_ge, <- not_true_iff_false.
  rewrite MatchString_doubleHyphenRe, MatchString_nameRe.
  split.
  - intros [[[H1 H2] Hdh] [Hall (x & Hlast & Hne)]].
    repeat split; try done; try lia. rewrite Hlast. congruence.
  - intros ([H1 H2] & Hall & Hlast & Hdh).
    repeat split; try done; try lia.
    destruct (last (String.list_ascii_of_string s)) as [x|] eqn:Hl.
    + exists x. split; [done|]. congruence.
    + apply last_None in Hl. pose proof (length_list_ascii_of_string s) as Hlen.
      rewrite Hl in Hlen. cbn in Hlen. lia.
Qed.

(** C6, the stated claim fails: ["-a"] begins with a hyphen and is accepted. *)
Lemma nameAccepted_leading_hyphen :
  nameAccepted "-a" = true ∧
  head (String.list_ascii_of_string "-a") = Some "-"%char.
Proof. split; reflexivity. Qed.

(** ** Delete and read *)

Lemma resourceParameterGroupDelete_run {W} (meta : AWSClient W) (d : ResourceData)
    (w : World W) (err : option error) (r : W) :
  DeleteParameterGroupWithContext (MemoryDBConn meta) (Some (Id d)) (remote w) = (err, r) →
  resourceParameterGroupDelete meta d w =
  (if tfawserr.ErrCodeEquals err ErrCodeParameterGroupNotFoundFault then []
   else match err with
        | Some e => diag.Errorf "error deleting MemoryDB Parameter Group (%s): %s"
                      [FString (Id d); FError e]
        | None => []
        end,
   {| remote := r; calls := calls w ++ [CallDelete (Some (Id d))] |}).
Proof.
  intros H. unfold resourceParameterGroupDelete, invoke, bind, ret, aws.String.
  rewrite H.
  destruct (tfawserr.ErrCodeEquals err ErrCodeParameterGroupNotFoundFault); [done|].
  by destruct err.
Qed.

(** C5. Delete does not fail on an absent group: when the remote delete call
    answers with the parameter-group-not-found fault, the callback returns no
    diagnostics; any other error of the call is returned as an error
    diagnostic that carries it; and the call is made exactly once. *)
Theorem resourceParameterGroupDelete_not_found_ok {W} (meta : AWSClient W)
    (d : ResourceData) (w : World W) (err : option error) (r : W) :
  DeleteParameterGroupWithContext (MemoryDBConn meta) (Some (Id d)) (remote w) = (err, r) →
  ∃ ds,
    resourceParameterGroupDelete meta d w =
      (ds, {| remote := r; calls := calls w ++ [CallDelete (Some (Id d))] |}) ∧
    (∀ message, err = Some (AwsError ErrCodeParameterGroupNotFoundFault message) →
       ds = []) ∧
    (tfawserr.ErrCodeEquals err ErrCodeParameterGroupNotFoundFault = true → ds = []) ∧
    (err = None → ds = []) ∧
    (∀ e, err = Some e →
       tfawserr.ErrCodeEquals err ErrCodeParameterGroupNotFoundFault = false →
       diag.HasError ds = true ∧
       ds = diag.Errorf "error deleting MemoryDB Parameter Group (%s): %s"
              [FString (Id d); FError e]).
Proof.
  intros H. eexists. split; [by apply resourceParameterGroupDelete_run|].
  split; [|split; [|split]].
  - by intros message ->.
  - by intros ->.
  - by intros ->.
  - by intros e -> ->.
Qed.

Lemma resourceParameterGroupDelete_not_found_ok_witness :
  fst (resourceParameterGroupDelete scriptedClient goneData freshWorld) = [] ∧
  diag.HasError (fst (resourceParameterGroupDelete scriptedClient lockedData freshWorld))
    = true.
Proof.
  destruct (resourceParameterGroupDelete_not_found_ok scriptedClient goneData freshWorld
              (Some groupNotFound) 0 eq_refl) as (ds & Heq & Hnf & _).
  destruct (resourceParameterGroupDelete_not_found_ok scriptedClient lockedData freshWorld
              (Some accessDenied) 0 eq_refl) as (ds' & Heq' & _ & _ & _ & Hother).
  rewrite Heq, Heq'. cbn [fst]. split.
  - by apply (Hnf "Parameter group gone not found").
  - by apply (Hother accessDenied).
Defined.

(** C7. Read of a group that the lookup reports as not found: for a resource
    that is not new the callback clears the identifier and returns no
    diagnostics; for a new resource it returns an error diagnostic and keeps
    the identifier. *)
Theorem resourceParameterGroupRead_not_found {W} (meta : AWSClient W)
    (d : ResourceData) (w : World W) (e : error) (r : W) :
  FindParameterGroupByName (helpers meta) (Id d) (remote w) = (inl e, r) →
  tfresource.NotFound (Some e) = true →
  ∃ d' ds,
    resourceParameterGroupRead meta d w =
      ((d', ds), {| remote := r; calls := calls w ++ [CallFind (Id d)] |}) ∧
    (IsNewResource d = false → d' = SetId "" d ∧ Id d' = "" ∧ ds = []) ∧
    (IsNewResource d = true →
       d' = d ∧ diag.HasError ds = true ∧
       ds = diag.Errorf "error reading MemoryDB Parameter Group (%s): %s"
              [FString (Id d); FError e]).
Proof.
  intros Hfind Hnf.
  unfold resourceParameterGroupRead, invoke, bind, ret. rewrite Hfind, Hnf.
  destruct (IsNewResource d); cbn [negb andb]; eexists _, _; (split; [done|]);
    split; intros; done.
Qed.

Lemma resourceParameterGroupRead_not_found_witness :
  fst (resourceParameterGroupRead scriptedClient goneData freshWorld)
    = (SetId "" goneData, []) ∧
  diag.HasError (snd (fst (resourceParameterGroupRead scriptedClient goneNewData freshWorld)))
    = true.
Proof.
  destruct (resourceParameterGroupRead_not_found scriptedClient goneData freshWorld
              (NotFoundError "not found") 0 eq_refl eq_refl)
    as (d1 & ds1 & Heq1 & Hold & _).
  destruct (resourceParameterGroupRead_not_found scriptedClient goneNewData freshWorld
              (NotFoundError "not found") 0 eq_refl eq_refl)
    as (d2 & ds2 & Heq2 & _ & Hnew).
  rewrite Heq1, Heq2. cbn [fst snd].
  destruct (Hold eq_refl) as (-> & _ & ->). destruct (Hnew eq_refl) as (_ & Hds & _).
  done.
Defined.

(** ** Reset with retry, update without *)

Section Retry.

Context {W : Type}.
Variable meta : AWSClient W.
Variable name : string.
Variable parameters : list ParameterNameValue.

Let conn := MemoryDBConn meta.
Let names := map ParameterName parameters.
Let call := CallReset (Some name) names.

(** The closure handed to [resource.Retry]. *)
Let attempt : M W (option resource.RetryError) :=
  err <~ invoke (CallReset (aws.String name) names)
                (ResetParameterGroupWithContext conn (aws.String name) names) ;;
  match err with
  | Some e =>
      if tfawserr.ErrMessageContains err
           ErrCodeInvalidParameterGroupStateFault " has pending changes"
      then ret (Some (resource.RetryableError e))
      else ret (Some (resource.NonRetryableError e))
  | None => ret None
  end.

Lemma resetParameterGroupParameters_unfold w :
  resetParameterGroupParameters meta name parameters w =
  resource.retryLoop (retryAttempts (runtime meta) (30 * resource.Second)) attempt w.
Proof. done. Qed.

Lemma attempt_run w :
  attempt w =
  (match resetResponse conn (Some name) names 0 (remote w) with
   | Some e => Some {| resource.Err := e; resource.Retryable := isPendingChanges e |}
   | None => None
   end,
   {| remote := resetStateAfter conn (Some name) names 1 (remote w);
      calls := calls w ++ [call] |}).
Proof.
  unfold attempt, invoke, bind, ret, resetResponse, aws.String. cbn [resetStateAfter].
  destruct (ResetParameterGroupWithContext conn (Some name) names (remote w))
    as [[e|] r]; cbn [fst snd]; [|done].
  unfold isPendingChanges.
  by destruct (tfawserr.ErrMessageContains (Some e) _ _).
Qed.

Lemma retryLoop_step n w :
  resource.retryLoop n attempt w =
  let w' := {| remote := resetStateAfter conn (Some name) names 1 (remote w);
               calls := calls w ++ [call] |} in
  match resetResponse conn (Some name) names 0 (remote w) with
  | None => (None, w')
  | Some e =>
      if isPendingChanges e then
        match n with
        | O => (Some e, w')
        | S n' => resource.retryLoop n' attempt w'
        end
      else (Some e, w')
  end.
Proof.
  destruct n; cbn [resource.retryLoop]; unfold bind at 1; rewrite attempt_run;
    destruct (resetResponse conn (Some name) names 0 (remote w)) as [e|];
    cbn [resource.Retryable resource.Err]; try done;
    by destruct (isPendingChanges e).
Qed.

Lemma retryLoop_pending_then_ok K : ∀ n w,
  K ≤ n →
  (∀ i, i < K → ∃ e, resetResponse conn (Some name) names i (remote w) = Some e
                     ∧ isPendingChanges e = true) →
  resetResponse conn (Some name) names K (remote w) = None →
  resource.retryLoop n attempt w =
  (None, {| remote := resetStateAfter conn (Some name) names (S K) (remote w);
            calls := calls w ++ replicate (S K) call |}).
Proof.
  induction K as [|K IH]; intros n w Hn Hpending Hok; rewrite retryLoop_step.
  - by rewrite Hok.
  - destruct (Hpending 0 ltac:(lia)) as (e & -> & ->).
    destruct n as [|n]; [lia|]. cbn zeta.
    rewrite IH; cbn [remote calls].
    + by rewrite <- app_assoc.
    + lia.
    + intros i Hi. apply (Hpending (S i)). lia.
    + exact Hok.
Qed.

End Retry.

Lemma slice_take_drop {A} (l : list A) :
  (if length l <=? maxParams then (l, []) else (take maxParams l, drop maxParams l))
  = (take maxParams l, drop maxParams l).
Proof.
  destruct (length l <=? maxParams) eqn:Hle; [|done].
  apply Nat.leb_le in Hle. by rewrite take_ge, drop_ge.
Qed.

Lemma modifyParameterGroupParameters_run {W} (meta : AWSClient W) (name : string)
    (parameters : list ParameterNameValue) (w : World W) :
  modifyParameterGroupParameters meta name parameters w =
  (fst (UpdateParameterGroupWithContext (MemoryDBConn meta) (Some name) parameters (remote w)),
   {| remote := snd (UpdateParameterGroupWithContext (MemoryDBConn meta) (Some name)
                       parameters (remote w));
      calls := calls w ++ [CallUpdate (Some name) parameters] |}).
Proof.
  unfold modifyParameterGroupParameters, invoke, aws.String.
  by destruct (UpdateParameterGroupWithContext _ _ _ _).
Qed.

(** C4. The reset path retries on the pending-changes conflict only: when the
    remote refuses the reset [K] times with that conflict and then accepts
    it, and [K] retries fit into the 30 second budget, the reset succeeds
    with exactly [K + 1] calls; when the first answer is any other error,
    that error is returned after exactly one call. The apply path makes one
    update call and returns its error as it is, and the loop around it stops
    at the first slice whose update fails. *)
Theorem reset_retries_modify_does_not {W} (meta : AWSClient W) (name : string)
    (parameters : list ParameterNameValue) (w : World W) (K : nat) :
  let conn := MemoryDBConn meta in
  let names := map ParameterName parameters in
  (K ≤ retryAttempts (runtime meta) (30 * resource.Second) →
   (∀ i, i < K → ∃ e, resetResponse conn (Some name) names i (remote w) = Some e
                      ∧ isPendingChanges e = true) →
   resetResponse conn (Some name) names K (remote w) = None →
   resetParameterGroupParameters meta name parameters w =
   (None, {| remote := resetStateAfter conn (Some name) names (S K) (remote w);
             calls := calls w ++ replicate (S K) (CallReset (Some name) names) |})) ∧
  (∀ e, resetResponse conn (Some name) names 0 (remote w) = Some e →
        isPendingChanges e = false →
        resetParameterGroupParameters meta name parameters w =
        (Some e, {| remote := resetStateAfter conn (Some name) names 1 (remote w);
                    calls := calls w ++ [CallReset (Some name) names] |})) ∧
  (∃ w', modifyParameterGroupParameters meta name parameters w =
           (fst (UpdateParameterGroupWithContext conn (Some name) parameters (remote w)), w')
         ∧ calls w' = calls w ++ [CallUpdate (Some name) parameters]) ∧
  (∀ fuel toAdd e,
     toAdd ≠ [] →
     fst (UpdateParameterGroupWithContext conn (Some name) (take maxParams toAdd) (remote w))
       = Some e →
     ∃ w', modifyLoop meta (S fuel) name toAdd w = (Some e, w') ∧
           calls w' = calls w ++ [CallUpdate (Some name) (take maxParams toAdd)]).
Proof.
  cbn zeta. split; [|split; [|split]].
  - intros HK Hpending Hok. rewrite resetParameterGroupParameters_unfold.
    by apply retryLoop_pending_then_ok.
  - intros e He Hnp. rewrite resetParameterGroupParameters_unfold, retryLoop_step.
    by rewrite He, Hnp.
  - eexists. by rewrite modifyParameterGroupParameters_run.
  - intros fuel [|x l] e Hne He; [done|].
    cbn [modifyLoop]. rewrite slice_take_drop.
    replace (0 <? length (x :: l)) with true by done.
    unfold bind. rewrite modifyParameterGroupParameters_run, He. by eexists.
Qed.

Lemma reset_retries_modify_does_not_witness :
  resetParameterGroupParameters scriptedClient "pg" [pnvOf ("hz", "10")] freshWorld =
    (None, {| remote := 3;
              calls := replicate 3 (CallReset (Some "pg") [Some "hz"]) |}) ∧
  resetParameterGroupParameters scriptedClient "locked" [pnvOf ("hz", "10")] freshWorld =
    (Some accessDenied, {| remote := 1; calls := [CallReset (Some "locked") [Some "hz"]] |}) ∧
  ∃ w', modifyLoop scriptedClient 1 "locked" [pnvOf ("hz", "10")] freshWorld
          = (Some accessDenied, w') ∧
        calls w' = [CallUpdate (Some "locked") [pnvOf ("hz", "10")]].
Proof.
  destruct (reset_retries_modify_does_not scriptedClient "pg" [pnvOf ("hz", "10")]
              freshWorld 2) as (Hretry & _ & _ & _).
  destruct (reset_retries_modify_does_not scriptedClient "locked" [pnvOf ("hz", "10")]
              freshWorld 0) as (_ & Hstop & _ & Habort).
  split; [|split].
  - apply Hretry.
    + vm_compute. lia.
    + intros i Hi. exists pendingChanges.
      destruct i as [|[|i]]; [by vm_compute | by vm_compute | lia].
    + by vm_compute.
  - apply (Hstop accessDenied); by vm_compute.
  - apply (Habort 0 [pnvOf ("hz", "10")] accessDenied); by vm_compute.
Defined.

(** ** Batching *)

Lemma chunksOf_nil {A} fuel : chunksOf fuel ([] : list A) = [].
Proof. by destruct fuel. Qed.

Lemma chunksOf_concat {A} fuel : ∀ l : list A,
  length l ≤ fuel → concat (chunksOf fuel l) = l.
Proof.
  induction fuel as [|fuel IH]; intros [|x l] Hlen; cbn in Hlen; try done; [lia|].
  cbn [chunksOf concat]. rewrite IH.
  - apply take_drop.
  - rewrite length_drop. cbn. unfold maxParams. lia.
Qed.

Lemma chunksOf_bounded {A} fuel : ∀ l : list A,
  Forall (λ s, length s ≤ maxParams) (chunksOf fuel l).
Proof.
  induction fuel as [|fuel IH]; intros [|x l]; cbn [chunksOf]; try by constructor.
  constructor; [|apply IH]. rewrite length_take. lia.
Qed.

Lemma chunksOf_length {A} fuel : ∀ l : list A,
  length l ≤ fuel → length (chunksOf fuel l) = (length l + 19) / 20.
Proof.
  induction fuel as [|fuel IH]; intros [|x l] Hlen; cbn in Hlen; try done; [lia|].
  cbn [chunksOf length]. rewrite IH by (rewrite length_drop; cbn; unfold maxParams; lia).
  rewrite length_drop. cbn [length]. unfold maxParams.
  destruct (decide (S (length l) ≤ 20)) as [Hs|Hs].
  - replace (S (length l) - 20) with 0 by lia.
    rewrite (Nat.div_small (0 + 19) 20) by lia.
    apply (Nat.div_unique _ 20 1 (length l)); lia.
  - replace (S (length l) + 19) with ((S (length l) - 20 + 19) + 1 * 20) by lia.
    rewrite Nat.div_add by lia. lia.
Qed.

Lemma chunksOf_map {A B} (f : A → B) fuel : ∀ l : list A,
  chunksOf fuel (map f l) = map (map f) (chunksOf fuel l).
Proof.
  induction fuel as [|fuel IH]; intros [|x l]; try done.
  cbn [chunksOf map]. rewrite <- IH.
  change (f x :: map f l) with (map f (x :: l)).
  by rewrite <- !fmap_take, <- !fmap_drop.
Qed.

Section Batching.

Context {W : Type}.
Variable meta : AWSClient W.
Variable name : string.

Let conn := MemoryDBConn meta.

Hypothesis reset_ok :
  ∀ n ns r, fst (ResetParameterGroupWithContext (MemoryDBConn meta) n ns r) = None.
Hypothesis update_ok :
  ∀ n ps r, fst (UpdateParameterGroupWithContext (MemoryDBConn meta) n ps r) = None.

Lemma resetParameterGroupParameters_ok parameters w :
  ∃ w', resetParameterGroupParameters meta name parameters w = (None, w') ∧
        calls w' = calls w ++ [CallReset (Some name) (map ParameterName parameters)].
Proof.
  rewrite resetParameterGroupParameters_unfold, retryLoop_step.
  unfold resetResponse. rewrite reset_ok. eauto.
Qed.

Lemma resetLoop_ok fuel : ∀ toRemove w,
  length toRemove ≤ fuel →
  ∃ w', resetLoop meta fuel name toRemove w = (None, w') ∧
        calls w' = calls w ++
          map (λ s, CallReset (Some name) (map ParameterName s)) (chunksOf fuel toRemove).
Proof.
  induction fuel as [|fuel IH]; intros [|x l] w Hlen; cbn in Hlen; try lia.
  - exists w. by rewrite app_nil_r.
  - exists w. by rewrite app_nil_r.
  - cbn [resetLoop]. rewrite slice_take_drop.
    replace (0 <? length (x :: l)) with true by done.
    unfold bind.
    destruct (resetParameterGroupParameters_ok (take maxParams (x :: l)) w)
      as (w1 & -> & Hc1).
    destruct (IH (drop maxParams (x :: l)) w1) as (w2 & Hrun & Hc2).
    { rewrite length_drop. cbn. unfold maxParams. lia. }
    exists w2. split; [exact Hrun|].
    rewrite Hc2, Hc1. cbn [chunksOf map]. by rewrite <- app_assoc.
Qed.

Lemma modifyLoop_ok fuel : ∀ toAdd w,
  length toAdd ≤ fuel →
  ∃ w', modifyLoop meta fuel name toAdd w = (None, w') ∧
        calls w' = calls w ++ map (CallUpdate (Some name)) (chunksOf fuel toAdd).
Proof.
  induction fuel as [|fuel IH]; intros [|x l] w Hlen; cbn in Hlen; try lia.
  - exists w. by rewrite app_nil_r.
  - exists w. by rewrite app_nil_r.
  - cbn [modifyLoop]. rewrite slice_take_drop.
    replace (0 <? length (x :: l)) with true by done.
    unfold bind. rewrite modifyParameterGroupParameters_run, update_ok.
    match goal with |- context [modifyLoop _ _ _ _ ?w1] =>
      destruct (IH (drop maxParams (x :: l)) w1) as (w2 & Hrun & Hc2) end.
    { rewrite length_drop. cbn. unfold maxParams. lia. }
    exists w2. split; [exact Hrun|].
    rewrite Hc2. cbn [calls chunksOf map]. by rewrite <- app_assoc.
Qed.

End Batching.

Lemma resetSlices_app a b : resetSlices (a ++ b) = resetSlices a ++ resetSlices b.
Proof. apply omap_app. Qed.

Lemma updateSlices_app a b : updateSlices (a ++ b) = updateSlices a ++ updateSlices b.
Proof. apply omap_app. Qed.

Lemma resetSlices_resets name (cs : list (list ParameterNameValue)) :
  resetSlices (map (λ s, CallReset name (map ParameterName s)) cs)
  = map (map ParameterName) cs.
Proof. induction cs as [|c cs IH]; [done|]. cbn. f_equal. apply IH. Qed.

Lemma updateSlices_resets name (cs : list (list ParameterNameValue)) :
  updateSlices (map (λ s, CallReset name (map ParameterName s)) cs) = [].
Proof. induction cs as [|c cs IH]; [done|]. apply IH. Qed.

Lemma updateSlices_updates name (cs : list (list ParameterNameValue)) :
  updateSlices (map (CallUpdate name) cs) = cs.
Proof. induction cs as [|c cs IH]; [done|]. cbn. f_equal. apply IH. Qed.

Lemma resetSlices_updates name (cs : list (list ParameterNameValue)) :
  resetSlices (map (CallUpdate name) cs) = [].
Proof. induction cs as [|c cs IH]; [done|]. apply IH. Qed.

Lemma quiet_ret {W A} (a : A) : quiet (ret a : M W A).
Proof. intros w. exists []. by rewrite app_nil_r. Qed.

Lemma quiet_bind {W A B} (m : M W A) (k : A → M W B) :
  quiet m → (∀ a, quiet (k a)) → quiet (bind m k).
Proof.
  intros Hm Hk w. unfold bind. destruct (Hm w) as (n1 & H1 & Hr1 & Hu1).
  destruct (m w) as [a w1]. cbn [snd] in H1.
  destruct (Hk a w1) as (n2 & H2 & Hr2 & Hu2).
  exists (n1 ++ n2). rewrite H2, H1, <- app_assoc, resetSlices_app, updateSlices_app.
  by rewrite Hr1, Hr2, Hu1, Hu2.
Qed.

Lemma quiet_invoke {W A} (c : Call) (op : W → A * W) :
  resetSlices [c] = [] → updateSlices [c] = [] → quiet (invoke c op).
Proof.
  intros Hr Hu w. unfold invoke. destruct (op (remote w)). by exists [c].
Qed.

Ltac quiet_step :=
  first
    [ apply quiet_ret
    | apply quiet_invoke; reflexivity
    | apply quiet_bind; [|intros ?]
    | match goal with
      | |- quiet (match ?x with _ => _ end) => destruct x
      end ].

Lemma listParameterGroupParameters_quiet {W} (meta : AWSClient W) family name userDefined :
  quiet (listParameterGroupParameters meta family name userDefined).
Proof. unfold listParameterGroupParameters, query. cbn zeta. repeat quiet_step. Qed.

Lemma resourceParameterGroupRead_quiet {W} (meta : AWSClient W) d :
  quiet (resourceParameterGroupRead meta d).
Proof.
  unfold resourceParameterGroupRead. cbn zeta.
  apply quiet_bind; [apply quiet_invoke; reflexivity|]. intros r.
  destruct (negb (IsNewResource d) && _); [apply quiet_ret|].
  destruct r as [e|group]; [apply quiet_ret|].
  apply quiet_bind; [apply listParameterGroupParameters_quiet|]. intros r.
  repeat quiet_step.
Qed.

Lemma updateTagsAndRead_quiet {W} (meta : AWSClient W) d :
  quiet (updateTagsAndRead meta d).
Proof.
  unfold updateTagsAndRead. case_bool_decide.
  - apply quiet_bind; [apply quiet_invoke; reflexivity|]. intros [e|].
    + apply quiet_ret.
    + apply resourceParameterGroupRead_quiet.
  - apply resourceParameterGroupRead_quiet.
Qed.

(** C3. Batching in the update callback. When the remote accepts every reset
    and update request, the callback makes, for the list to reset and for the
    list to apply alike, exactly [ceil(L/20)] calls for a list of length [L];
    every call carries at most 20 items; and the slices of the calls, put
    end to end, are the list itself, so nothing is repeated or left out. *)
Theorem resourceParameterGroupUpdate_batches {W} (meta : AWSClient W)
    (d : ResourceData) (w : World W) (O N : list (string * string)) :
  d_parameter_old d = blocks O →
  d_parameter d = blocks N →
  (∀ n ns r, fst (ResetParameterGroupWithContext (MemoryDBConn meta) n ns r) = None) →
  (∀ n ps r, fst (UpdateParameterGroupWithContext (MemoryDBConn meta) n ps r) = None) →
  ∃ toRemove toAdd result w' new,
    ParameterChanges (mapOrder (runtime meta)) (ISet (blocks O)) (ISet (blocks N))
      = Some (toRemove, toAdd) ∧
    resourceParameterGroupUpdate meta d w = (Some result, w') ∧
    calls w' = calls w ++ new ∧
    length (resetSlices new) = (length toRemove + 19) / 20 ∧
    Forall (λ s, length s ≤ 20) (resetSlices new) ∧
    concat (resetSlices new) = map ParameterName toRemove ∧
    length (updateSlices new) = (length toAdd + 19) / 20 ∧
    Forall (λ s, length s ≤ 20) (updateSlices new) ∧
    concat (updateSlices new) = toAdd.
Proof.
  intros HO HN Hreset Hupdate.
  pose (ord := mapOrder (runtime meta)).
  assert (HPC : ParameterChanges ord (ISet (blocks O)) (ISet (blocks N))
                = Some (removeOf ord (insertAll O ∅) (insertAll N ∅),
                        addOrUpdateOf ord (insertAll O ∅) (insertAll N ∅))).
  { unfold ParameterChanges, assertSet, mbind, option_bind.
    by rewrite !expandInto_blocks. }
  exists (removeOf ord (insertAll O ∅) (insertAll N ∅)),
         (addOrUpdateOf ord (insertAll O ∅) (insertAll N ∅)).
  unfold resourceParameterGroupUpdate. rewrite HO, HN.
  case_bool_decide as Hchange.
  - fold ord. rewrite HPC.
    set (toRemove := removeOf ord (insertAll O ∅) (insertAll N ∅)).
    set (toAdd := addOrUpdateOf ord (insertAll O ∅) (insertAll N ∅)).
    unfold bind at 1.
    destruct (resetLoop_ok meta (d_name d) Hreset (length toRemove) toRemove w)
      as (w1 & -> & Hc1); [done|].
    unfold bind at 1.
    destruct (modifyLoop_ok meta (d_name d) Hupdate (length toAdd) toAdd w1)
      as (w2 & -> & Hc2); [done|].
    unfold bind, ret.
    destruct (updateTagsAndRead_quiet meta d w2) as (n3 & Hc3 & Hr3 & Hu3).
    destruct (updateTagsAndRead meta d w2) as [r w3]. cbn [snd] in Hc3.
    eexists r, w3, _. split; [done|]. split; [done|].
    split; [by rewrite Hc3, Hc2, Hc1, <- !app_assoc|].
    rewrite !resetSlices_app, !updateSlices_app, Hr3, Hu3, !app_nil_r.
    rewrite resetSlices_resets, resetSlices_updates, updateSlices_resets,
      updateSlices_updates, app_nil_r, app_nil_l.
    repeat split.
    + rewrite length_map. by apply chunksOf_length.
    + apply Forall_fmap. eapply Forall_impl; [apply chunksOf_bounded|].
      intros s Hs. cbn. by rewrite length_map.
    + rewrite <- chunksOf_map. apply chunksOf_concat. by rewrite length_map.
    + by apply chunksOf_length.
    + apply chunksOf_bounded.
    + by apply chunksOf_concat.
  - rewrite <- Hchange.
    unfold ParameterChanges, assertSet, mbind, option_bind.
    rewrite !expandInto_blocks.
    assert (Hmaps : insertAll N ∅ = insertAll O ∅).
    { pose proof (expandInto_blocks O ∅) as E1. pose proof (expandInto_blocks N ∅) as E2.
      rewrite Hchange in E1. rewrite E1 in E2. by injection E2. }
    rewrite Hmaps, removeOf_self, addOrUpdateOf_self.
    unfold bind, ret.
    destruct (updateTagsAndRead_quiet meta d w) as (n3 & Hc3 & Hr3 & Hu3).
    destruct (updateTagsAndRead meta d w) as [r w3]. cbn [snd] in Hc3.
    exists r, w3, n3. rewrite Hr3, Hu3, !removeOf_self, !addOrUpdateOf_self.
    repeat split; done.
Qed.

Lemma resourceParameterGroupUpdate_batches_witness :
  ∃ new,
    calls (snd (resourceParameterGroupUpdate obligingClient manyData freshWorld)) = new ∧
    length (resetSlices new) = 3 ∧
    Forall (λ s, length s ≤ 20) (resetSlices new) ∧
    length (concat (resetSlices new)) = 41 ∧
    updateSlices new = [].
Proof.
  destruct (resourceParameterGroupUpdate_batches obligingClient manyData freshWorld
              (manyDeclared 41) (manyDeclared 0) eq_refl eq_refl)
    as (toRemove & toAdd & result & w' & new & HPC & Hrun & Hcalls
        & Hlen & Hall & Hcat & Hulen & _ & _).
  - done.
  - done.
  - rewrite Hrun. cbn [snd]. rewrite Hcalls. cbn [freshWorld calls app].
    exists new. split; [done|].
    vm_compute in HPC. injection HPC as <- <-.
    split; [exact Hlen|]. split; [exact Hall|]. split.
    + by rewrite Hcat.
    + by apply nil_length_inv.
Defined.

(** C3, the stated claim fails: the scripted remote answers the first two
    reset requests with the pending-changes conflict. The update of a group
    that drops its one declared parameter succeeds without diagnostics, yet
    for the list of one name to reset it has made three reset calls, not
    [ceil(1/20) = 1], and the name was passed three times. *)
Lemma resourceParameterGroupUpdate_batches_retried :
  ∃ toRemove result w',
    ParameterChanges (mapOrder (runtime scriptedClient))
      (ISet (d_parameter_old retriedData)) (ISet (d_parameter retriedData))
      = Some (toRemove, []) ∧
    length toRemove = 1 ∧
    resourceParameterGroupUpdate scriptedClient retriedData freshWorld
      = (Some result, w') ∧
    snd result = [] ∧
    resetSlices (calls w') = [[Some "hz"]; [Some "hz"]; [Some "hz"]] ∧
    length (resetSlices (calls w')) ≠ (length toRemove + 19) / 20 ∧
    concat (resetSlices (calls w')) ≠ map ParameterName toRemove.
Proof.
  eexists _, _, _.
  split; [by vm_compute|]. split; [reflexivity|].
  split; [by vm_compute|]. split; [reflexivity|].
  split; [reflexivity|]. split; by vm_compute.
Qed.


(** * Further properties *)

(** ** The differencer on arbitrary input *)

Lemma expandInto_cons r l m :
  expandInto (r :: l) m =
  match r with
  | RMap p =>
      match p !! "name", p !! "value" with
      | Some (VString k), Some (VString v) => expandInto l (<[k := pnvOf (k, v)]> m)
      | _, _ => None
      end
  | RScalar _ => None
  end.
Proof.
  cbn [expandInto]. unfold expandParameterNameValue.
  destruct r as [p|v]; [|done]. cbn.
  destruct (p !! "name") as [[| k | |]|]; try done. cbn.
  by destruct (p !! "value") as [[| v | |]|].
Qed.

Lemma expandInto_None l : ∀ m,
  expandInto l m = None ↔ ∃ r, r ∈ l ∧ isParamBlock r = false.
Proof.
  induction l as [|r l IH]; intros m.
  - split; [done|]. intros (r & Hr & _). by apply elem_of_nil in Hr.
  - rewrite expandInto_cons.
    assert (Hbad : isParamBlock r = false →
              (None : option (gmap string ParameterNameValue)) = None ↔
              ∃ r0, r0 ∈ r :: l ∧ isParamBlock r0 = false).
    { intros Hr. split; [|done]. intros _. exists r. split; [left|done]. }
    destruct r as [p|v]; [|by apply Hbad].
    destruct (p !! "name") as [[| k | |]|] eqn:Hk;
      try (apply Hbad; unfold isParamBlock; by rewrite Hk).
    destruct (p !! "value") as [[| v | |]|] eqn:Hv;
      try (apply Hbad; unfold isParamBlock; by rewrite Hk, Hv).
    rewrite IH. split.
    + intros (r & Hr & Hb). exists r. split; [by right|done].
    + intros (r & Hr & Hb). apply elem_of_cons in Hr as [->|Hr].
      * unfold isParamBlock in Hb. by rewrite Hk, Hv in Hb.
      * by exists r.
Qed.

Lemma ParameterChanges_unfold ord o n :
  ParameterChanges ord o n =
  match entriesOf o, entriesOf n with
  | Some os, Some ns =>
      match expandInto os ∅, expandInto ns ∅ with
      | Some om, Some nm => Some (removeOf ord om nm, addOrUpdateOf ord om nm)
      | _, _ => None
      end
  | _, _ => None
  end.
Proof.
  unfold ParameterChanges.
  destruct o as [|os|vo], n as [|ns|vn]; cbn [entriesOf assertSet mbind option_bind];
    try done;
    repeat match goal with
           | |- context [expandInto ?l ∅] =>
               destruct (expandInto l ∅); cbn [mbind option_bind]; try done
           end.
Qed.

(** X1. [ParameterChanges] panics exactly when an argument is neither nil nor
    a set, or when some element of either set is not a block with a string
    name and a string value. *)
Theorem ParameterChanges_panics_iff (ord : MapOrder) (o n : iface) :
  ParameterChanges ord o n = None ↔
  entriesOf o = None ∨ entriesOf n = None ∨
  ∃ r, r ∈ default [] (entriesOf o) ++ default [] (entriesOf n) ∧
       isParamBlock r = false.
Proof.
  rewrite ParameterChanges_unfold.
  destruct (entriesOf o) as [os|]; [|by split; [left|]].
  destruct (entriesOf n) as [ns|]; [|by split; [right; left|]].
  cbn [default].
  destruct (expandInto os ∅) as [om|] eqn:Eo.
  - destruct (expandInto ns ∅) as [nm|] eqn:En.
    + split; [done|]. intros [[=]|[[=]|(r & Hr & Hb)]].
      apply elem_of_app in Hr as [Hr|Hr].
      * assert (expandInto os ∅ = None) by (apply expandInto_None; eauto). congruence.
      * assert (expandInto ns ∅ = None) by (apply expandInto_None; eauto). congruence.
    + split; [|done]. intros _. right. right.
      apply expandInto_None in En as (r & Hr & Hb).
      exists r. split; [|done]. apply elem_of_app. by right.
  - split; [|done]. intros _. right. right.
    apply expandInto_None in Eo as (r & Hr & Hb).
    exists r. split; [|done]. apply elem_of_app. by left.
Qed.

Lemma removeOf_empty_new ord om : removeOf ord om ∅ = (range ord om).*2.
Proof.
  unfold removeOf.
  assert (Hall : ∀ kv, kv ∈ range ord om → om !! kv.1 = Some kv.2).
  { intros [k p] Hin. by apply elem_of_range in Hin. }
  induction (range ord om) as [|[k p] L IH]; [done|].
  cbn [omap list_omap fst]. rewrite lookup_empty.
  pose proof (Hall (k, p) ltac:(left)) as Hk. cbn in Hk. rewrite Hk.
  rewrite fmap_cons. cbn. f_equal. apply IH. intros kv Hkv. apply Hall. by right.
Qed.

Lemma addOrUpdateOf_empty_old ord nm : addOrUpdateOf ord ∅ nm = (range ord nm).*2.
Proof.
  unfold addOrUpdateOf.
  assert (Hall : ∀ kv, kv ∈ range ord nm → nm !! kv.1 = Some kv.2).
  { intros [k p] Hin. by apply elem_of_range in Hin. }
  induction (range ord nm) as [|[k p] L IH]; [done|].
  cbn [omap list_omap fst]. rewrite lookup_empty.
  pose proof (Hall (k, p) ltac:(left)) as Hk. cbn in Hk. rewrite Hk.
  rewrite fmap_cons. cbn. f_equal. apply IH. intros kv Hkv. apply Hall. by right.
Qed.

Lemma removeOf_empty_old ord nm : removeOf ord ∅ nm = [].
Proof.
  unfold removeOf.
  assert (Hnil : range ord (∅ : gmap string ParameterNameValue) = []).
  { apply Permutation_nil_r. rewrite (range_perm ord ∅). by rewrite map_to_list_empty. }
  by rewrite Hnil.
Qed.

Lemma addOrUpdateOf_empty_new ord om : addOrUpdateOf ord om ∅ = [].
Proof.
  unfold addOrUpdateOf.
  assert (Hnil : range ord (∅ : gmap string ParameterNameValue) = []).
  { apply Permutation_nil_r. rewrite (range_perm ord ∅). by rewrite map_to_list_empty. }
  by rewrite Hnil.
Qed.

Lemma range_insertAll ord (N : list (string * string)) :
  NoDup N.*1 →
  (range ord (insertAll N ∅)).*2 ≡ₚ pnvOf <$> N.
Proof.
  intros HN.
  assert (Hperm : range ord (insertAll N ∅) ≡ₚ (λ kv, (kv.1, pnvOf kv)) <$> N).
  { apply NoDup_Permutation.
    - apply (NoDup_fmap_1 fst), NoDup_range_keys.
    - assert (Hinj : Inj eq eq (λ kv : string * string, (kv.1, pnvOf kv))).
      { intros [k v] [k' v'] H. unfold pnvOf, aws.String in H. cbn in H. by simplify_eq. }
      apply (NoDup_fmap_2 _). by apply (NoDup_fmap_1 fst).
    - intros [k p]. rewrite elem_of_range, list_elem_of_fmap. split.
      + intros H. apply insertAll_lookup_Some in H as [H|(v & Hv & ->)];
          [by rewrite lookup_empty in H|]. by exists (k, v).
      + intros ([k' v] & Heq & Hin). cbn in Heq. simplify_eq.
        by apply insertAll_lookup_in. }
  rewrite Hperm, <- list_fmap_compose. done.
Qed.

(** X2. A nil set counts as empty. With no old set every declared parameter
    of a name-unique new set is applied and nothing is reset; with no new set
    every parameter of the old set is reset and nothing is applied. *)
Theorem ParameterChanges_nil_side (ord : MapOrder) (D : list (string * string)) :
  NoDup D.*1 →
  (∃ addOrUpdate,
     ParameterChanges ord INil (ISet (blocks D)) = Some ([], addOrUpdate) ∧
     ParameterChanges ord (ISet []) (ISet (blocks D)) = Some ([], addOrUpdate) ∧
     addOrUpdate ≡ₚ pnvOf <$> D) ∧
  (∃ remove,
     ParameterChanges ord (ISet (blocks D)) INil = Some (remove, []) ∧
     ParameterChanges ord (ISet (blocks D)) (ISet []) = Some (remove, []) ∧
     remove ≡ₚ pnvOf <$> D).
Proof.
  intros HD. split.
  - exists (addOrUpdateOf ord ∅ (insertAll D ∅)).
    rewrite !ParameterChanges_unfold. cbn [entriesOf expandInto].
    rewrite expandInto_blocks, removeOf_empty_old. split; [done|]. split; [done|].
    rewrite addOrUpdateOf_empty_old. by apply range_insertAll.
  - exists (removeOf ord (insertAll D ∅) ∅).
    rewrite !ParameterChanges_unfold. cbn [entriesOf expandInto].
    rewrite expandInto_blocks, addOrUpdateOf_empty_new. split; [done|]. split; [done|].
    rewrite removeOf_empty_new. by apply range_insertAll.
Qed.

Lemma ParameterChanges_nil_side_witness :
  ∃ addOrUpdate,
    ParameterChanges canonicalOrder INil (ISet (blocks newDeclared)) = Some ([], addOrUpdate) ∧
    length addOrUpdate = 3.
Proof.
  destruct (ParameterChanges_nil_side canonicalOrder newDeclared NoDup_newDeclared)
    as [(a & Heq & _ & Hperm) _].
  exists a. split; [exact Heq|].
  apply Permutation_length in Hperm. rewrite Hperm. reflexivity.
Defined.

Lemma insertAll_size l : ∀ m : gmap string ParameterNameValue,
  size (insertAll l m) ≤ length l + size m.
Proof.
  induction l as [|kv l IH]; intros m; [done|].
  rewrite insertAll_cons. etrans; [apply IH|].
  destruct (m !! kv.1) as [p|] eqn:E.
  - rewrite map_size_insert_Some by eauto. cbn [length]. lia.
  - rewrite map_size_insert_None by done. cbn [length]. lia.
Qed.

Lemma length_omap_le {A B} (f : A → option B) (l : list A) :
  length (omap f l) ≤ length l.
Proof.
  induction l as [|x l IH]; [done|]. cbn. destruct (f x); cbn; lia.
Qed.

Lemma length_range ord (m : gmap string ParameterNameValue) :
  length (range ord m) = size m.
Proof. rewrite (range_perm ord m). apply length_map_to_list. Qed.

Lemma insertAll_snoc l k v (m : gmap string ParameterNameValue) :
  insertAll (l ++ [(k, v)]) m !! k = Some (pnvOf (k, v)).
Proof. unfold insertAll. rewrite foldl_snoc. cbn. apply lookup_insert_eq. Qed.

(** X3. Whatever the declared lists hold, also names declared twice, no name
    occurs twice in an output of [ParameterChanges], and neither output is
    longer than the set it comes from. Of two entries with one name the later
    one counts: a parameter declared last with a new name-value pair is
    applied with that value. *)
Theorem ParameterChanges_outputs_name_unique (ord : MapOrder)
    (O N : list (string * string)) :
  ∃ remove addOrUpdate,
    ParameterChanges ord (ISet (blocks O)) (ISet (blocks N)) = Some (remove, addOrUpdate) ∧
    NoDup (pnvName <$> remove) ∧ NoDup (pnvName <$> addOrUpdate) ∧
    length remove ≤ length O ∧ length addOrUpdate ≤ length N ∧
    (∀ N' k v, N = N' ++ [(k, v)] → (k, v) ∉ O → pnvOf (k, v) ∈ addOrUpdate).
Proof.
  exists (removeOf ord (insertAll O ∅) (insertAll N ∅)),
         (addOrUpdateOf ord (insertAll O ∅) (insertAll N ∅)).
  assert (Hko : keyed (insertAll O ∅)) by (intros k p; apply insertAll_keyed).
  assert (Hkn : keyed (insertAll N ∅)) by (intros k p; apply insertAll_keyed).
  split; [by rewrite ParameterChanges_unfold; cbn [entriesOf];
             rewrite !expandInto_blocks|].
  split; [by apply removeOf_NoDup|]. split; [by apply addOrUpdateOf_NoDup|].
  split; [|split].
  - etrans; [apply length_omap_le|]. rewrite length_range.
    etrans; [apply insertAll_size|]. rewrite map_size_empty. lia.
  - etrans; [apply length_omap_le|]. rewrite length_range.
    etrans; [apply insertAll_size|]. rewrite map_size_empty. lia.
  - intros N' k v -> Hnot.
    apply (addOrUpdateOf_intro _ _ _ k); [apply insertAll_snoc|].
    unfold changedKey. rewrite insertAll_snoc.
    destruct (insertAll O ∅ !! k) as [ov|] eqn:Ho; [|done].
    apply insertAll_lookup_Some in Ho as [Ho|(v' & Hv' & ->)];
      [by rewrite lookup_empty in Ho|].
    apply bool_decide_eq_true. cbn. intros ->. done.
Qed.

Lemma ParameterChanges_outputs_name_unique_witness :
  ∃ remove addOrUpdate,
    ParameterChanges canonicalOrder (ISet (blocks [("hz", "10")]))
      (ISet (blocks [("hz", "10"); ("hz", "20")])) = Some (remove, addOrUpdate) ∧
    pnvOf ("hz", "20") ∈ addOrUpdate ∧ length addOrUpdate ≤ 2.
Proof.
  destruct (ParameterChanges_outputs_name_unique canonicalOrder
              [("hz", "10")] [("hz", "10"); ("hz", "20")])
    as (r & a & Heq & _ & _ & _ & Hlen & Hlast).
  exists r, a. split; [exact Heq|]. split; [|exact Hlen].
  apply (Hlast [("hz", "10")] "hz" "20" eq_refl).
  intros H. apply list_elem_of_singleton in H. discriminate H.
Defined.

Lemma insertAll_is_Some_iff l k :
  is_Some (insertAll l ∅ !! k) ↔ k ∈ l.*1.
Proof.
  split.
  - intros [p Hp]. destruct (decide (k ∈ l.*1)) as [|Hn]; [done|].
    apply insertAll_lookup_None in Hn. congruence.
  - apply insertAll_lookup_is_Some.
Qed.

Lemma changedKey_both om nm k :
  changedKey om nm k = true ∧ is_Some (om !! k) ↔
  changedKey nm om k = true ∧ is_Some (nm !! k).
Proof.
  unfold changedKey.
  destruct (om !! k) as [ov|], (nm !! k) as [nv|]; split; intros [H1 H2];
    try done; try (by destruct H2); (split; [|eauto]);
    apply bool_decide_eq_true; apply bool_decide_eq_true in H1; congruence.
Qed.

(** X4. Diffing in the two directions fits together: what the change from
    [O] to [N] resets, the change back from [N] to [O] applies again with the
    value of [O], and the other way round; a name declared on both sides is
    applied in one direction exactly when it is applied in the other. *)
Theorem ParameterChanges_reverse (ord : MapOrder) (O N : list (string * string)) :
  ∃ remove addOrUpdate remove' addOrUpdate',
    ParameterChanges ord (ISet (blocks O)) (ISet (blocks N)) = Some (remove, addOrUpdate) ∧
    ParameterChanges ord (ISet (blocks N)) (ISet (blocks O)) = Some (remove', addOrUpdate') ∧
    (∀ p, p ∈ remove → p ∈ addOrUpdate') ∧
    (∀ p, p ∈ remove' → p ∈ addOrUpdate) ∧
    (∀ k, k ∈ pnvName <$> addOrUpdate ∧ k ∈ O.*1 ↔
          k ∈ pnvName <$> addOrUpdate' ∧ k ∈ N.*1).
Proof.
  eexists _, _, _, _.
  rewrite !ParameterChanges_unfold. cbn [entriesOf]. rewrite !expandInto_blocks.
  split; [done|]. split; [done|].
  assert (Hko : keyed (insertAll O ∅)) by (intros k p; apply insertAll_keyed).
  assert (Hkn : keyed (insertAll N ∅)) by (intros k p; apply insertAll_keyed).
  assert (Hback : ∀ om nm p, p ∈ removeOf ord om nm → p ∈ addOrUpdateOf ord nm om).
  { intros om nm p (k & Ho & Hn)%removeOf_elem.
    apply (addOrUpdateOf_intro _ _ _ k); [done|].
    unfold changedKey. by rewrite Ho, Hn. }
  split; [apply Hback|]. split; [apply Hback|].
  intros k. rewrite !addOrUpdateOf_name_elem by done.
  rewrite <- !insertAll_is_Some_iff. apply changedKey_both.
Qed.

(** ** Validation of the name prefix *)

Lemma matchAll_Plus_Class f s :
  matchAll (Plus (Class f)) s = true ↔ s ≠ [] ∧ forallb f s = true.
Proof.
  unfold Plus. rewrite matchAll_Cat. split.
  - intros (a & b & -> & Ha & Hb). apply matchAll_Class in Ha as (c & -> & Hc).
    rewrite matchAll_Star_Class in Hb. split; [done|]. cbn. by rewrite Hc, Hb.
  - intros [Hne Hall]. destruct s as [|c s]; [done|].
    cbn in Hall. apply andb_true_iff in Hall as [Hc Hs].
    exists [c], s. split; [done|]. split.
    + apply matchAll_Class. by exists c.
    + by rewrite matchAll_Star_Class.
Qed.

Lemma MatchString_namePrefixRe s :
  MatchString namePrefixRe s = true ↔
  String.list_ascii_of_string s ≠ [] ∧
  forallb lowerAlnumHyphen (String.list_ascii_of_string s) = true.
Proof.
  rewrite MatchString_spec. unfold namePrefixRe. cbn [beginText endText body]. split.
  - intros (a & b & c & Hs & Ha & Hc & Hb).
    rewrite Ha, Hc, app_nil_r in Hs by done. cbn in Hs. rewrite Hs.
    by apply matchAll_Plus_Class.
  - intros H. exists [], (String.list_ascii_of_string s), [].
    rewrite app_nil_r. repeat split; try done. by apply matchAll_Plus_Class.
Qed.

Lemma namePrefixAccepted_unfold s :
  namePrefixAccepted s =
  negb ((String.length s <? 1) || (229 <? String.length s))
  && negb (MatchString doubleHyphenRe s) && MatchString namePrefixRe s.
Proof.
  unfold namePrefixAccepted, namePrefixValidateFunc, validation.All,
    validation.StringLenBetween, validation.StringDoesNotMatch, validation.StringMatch.
  cbn [map concat]. change (255 - UniqueIDSuffixLength) with 229.
  destruct ((String.length s <? 1) || (229 <? String.length s));
    destruct (MatchString doubleHyphenRe s); destruct (MatchString namePrefixRe s); done.
Qed.

(** X5. The validation of [name_prefix] accepts a string if and only if it
    has 1 to 229 bytes (255 less the length of the unique suffix), holds only
    lower-case letters, digits and hyphens, and has no two hyphens in a row.
    Unlike a name, a prefix may end with a hyphen. *)
Theorem namePrefixAccepted_iff (s : string) :
  namePrefixAccepted s = true ↔
  1 ≤ String.length s ≤ 229 ∧
  forallb lowerAlnumHyphen (String.list_ascii_of_string s) = true ∧
  ¬ ∃ a c, String.list_ascii_of_string s = a ++ ["-"; "-"]%char ++ c.
Proof.
  rewrite namePrefixAccepted_unfold, !andb_true_iff, !negb_true_iff, orb_false_iff.
  rewrite !Nat.ltb_ge, <- not_true_iff_false.
  rewrite MatchString_doubleHyphenRe, MatchString_namePrefixRe.
  split.
  - intros [[[H1 H2] Hdh] [Hne Hall]]. repeat split; try done; lia.
  - intros ([H1 H2] & Hall & Hdh). repeat split; try done; try lia.
    intros Hnil. pose proof (length_list_ascii_of_string s) as Hlen.
    rewrite Hnil in Hlen. cbn in Hlen. lia.
Qed.

(** X6. The two validations agree up to the end of the string and the
    length: an accepted name of at most 229 bytes is an accepted prefix, and
    an accepted prefix that does not end with a hyphen is an accepted name;
    a prefix that ends with a hyphen is never an accepted name. *)
Theorem name_and_prefix_validation (s : string) :
  (nameAccepted s = true → String.length s ≤ 229 → namePrefixAccepted s = true) ∧
  (namePrefixAccepted s = true →
   last (String.list_ascii_of_string s) ≠ Some "-"%char → nameAccepted s = true) ∧
  (last (String.list_ascii_of_string s) = Some "-"%char → nameAccepted s = false).
Proof.
  rewrite nameAccepted_unfold, namePrefixAccepted_unfold.
  split; [|split].
  - rewrite !andb_true_iff, !negb_true_iff, !orb_false_iff, !Nat.ltb_ge.
    rewrite MatchString_nameRe, MatchString_namePrefixRe.
    intros [[[H1 H2] Hdh] [Hall (x & Hlast & Hne)]] Hlen.
    repeat split; try done. intros Hnil. by rewrite Hnil in Hlast.
  - rewrite !andb_true_iff, !negb_true_iff, !orb_false_iff, !Nat.ltb_ge.
    rewrite MatchString_nameRe, MatchString_namePrefixRe.
    intros [[[H1 H2] Hdh] [Hne Hall]] Hlast.
    repeat split; try done; try lia.
    destruct (last (String.list_ascii_of_string s)) as [x|] eqn:Hl.
    + exists x. split; [done|]. congruence.
    + by apply last_None in Hl.
  - intros Hlast. apply not_true_iff_false.
    rewrite !andb_true_iff, MatchString_nameRe.
    intros [_ [_ (x & Hx & Hne)]]. congruence.
Qed.

Lemma name_and_prefix_validation_witness :
  namePrefixAccepted "cache-params" = true ∧
  nameAccepted "cache-params" = true ∧
  nameAccepted "cache-" = false.
Proof.
  destruct (name_and_prefix_validation "cache-params") as (Hnp & Hpn & _).
  destruct (name_and_prefix_validation "cache-") as (_ & _ & Hend).
  assert (Hn : nameAccepted "cache-params" = true) by reflexivity.
  split; [|split].
  - apply Hnp; [exact Hn|]. cbn. lia.
  - apply Hpn; [reflexivity|]. by vm_compute.
  - apply Hend. reflexivity.
Defined.

(** ** User-declared names and the lister *)

Lemma userDefinedFold_notin (D : list (string * string)) (m : gmap string string) k :
  k ∉ D.*1 → foldl userDefinedStep m (blocks D) !! k = m !! k.
Proof.
  revert m. induction D as [|[k' v'] D IH]; intros m Hk; [done|].
  rewrite fmap_cons in Hk. apply not_elem_of_cons in Hk as [Hne Hk].
  cbn [blocks map foldl]. fold (blocks D). rewrite IH by done.
  unfold userDefinedStep. rewrite userDefinedEntry_paramBlock.
  repeat case_decide; try done. by rewrite lookup_insert_ne.
Qed.

Lemma userDefinedFold_is_Some declared : ∀ (m : gmap string string) k,
  (is_Some (m !! k) ∨
   ∃ param v, param ∈ declared ∧ userDefinedEntry param = Some (k, v)) →
  is_Some (foldl userDefinedStep m declared !! k).
Proof.
  induction declared as [|param declared IH]; intros m k H.
  - destruct H as [H|(q & v & Hq & _)]; [done|]. by apply elem_of_nil in Hq.
  - cbn [foldl]. apply IH. destruct H as [H|(q & v & Hq & He)].
    + left. unfold userDefinedStep.
      destruct (userDefinedEntry param) as [[n x]|]; [|done].
      rewrite lookup_insert. case_decide; eauto.
    + apply elem_of_cons in Hq as [->|Hq].
      * left. unfold userDefinedStep. rewrite He. rewrite lookup_insert_eq. eauto.
      * right. eauto.
Qed.

(** X7. Declared blocks and the user-declared map agree: for a name-unique
    declared set the map holds a value for a name exactly when the set
    declares that name with that value and neither is empty. *)
Theorem createUserDefinedParameterMap_lookup (D : list (string * string))
    (k v : string) :
  NoDup D.*1 →
  createUserDefinedParameterMap (blocks D) !! k = Some v ↔
  (k, v) ∈ D ∧ k ≠ "" ∧ v ≠ "".
Proof.
  intros HD. rewrite createUserDefinedParameterMap_fold. split.
  - intros H. apply userDefinedFold_lookup in H as [H|(param & Hp & He)];
      [by rewrite lookup_empty in H|].
    unfold blocks in Hp. apply list_elem_of_fmap in Hp as ([k' v'] & -> & Hkv).
    cbn [fst snd] in He. rewrite userDefinedEntry_paramBlock in He.
    repeat case_decide; try done. by simplify_eq.
  - intros (Hin & Hk & Hv).
    generalize (∅ : gmap string string).
    induction D as [|[k' v'] D IH]; intros m; [by apply elem_of_nil in Hin|].
    rewrite fmap_cons in HD. apply NoDup_cons in HD as [Hk' HD].
    cbn [blocks map foldl]. fold (blocks D).
    apply elem_of_cons in Hin as [Heq|Hin].
    + simplify_eq. rewrite userDefinedFold_notin by done.
      unfold userDefinedStep. rewrite userDefinedEntry_paramBlock.
      rewrite !decide_False by done. apply lookup_insert_eq.
    + by apply IH.
Qed.

Lemma createUserDefinedParameterMap_lookup_witness :
  createUserDefinedParameterMap (blocks newDeclared) !! "timeout" = Some "30".
Proof.
  apply (createUserDefinedParameterMap_lookup newDeclared "timeout" "30"
           NoDup_newDeclared).
  split; [|done]. unfold newDeclared. do 2 apply list_elem_of_further.
  apply list_elem_of_here.
Defined.

(** X8. Parameters given in the user-declared set are returned even if the
    value is equal to the default: whenever the declared set holds an entry
    for a name with a non-empty name and value, every parameter of that name
    in the current listing is in the result of the lister. *)
Theorem listParameterGroupParameters_keeps_declared {W} (meta : AWSClient W)
    (family name : string) (D : list (string * string)) (w : World W)
    (defaults current : list Param) (r1 r2 : W) (p : Param) (v : string) :
  DescribeParametersWithContext (MemoryDBConn meta)
    (Some ("default." +:+ strings.ReplaceAll family "_" "-")) (remote w)
    = (inr defaults, r1) →
  DescribeParametersWithContext (MemoryDBConn meta) (Some name) r1
    = (inr current, r2) →
  (aws.StringValue (Name p), v) ∈ D → aws.StringValue (Name p) ≠ "" → v ≠ "" →
  p ∈ current →
  ∃ result w',
    listParameterGroupParameters meta family name
      (createUserDefinedParameterMap (blocks D)) w = (inr result, w') ∧
    p ∈ result.
Proof.
  intros Hd Hc HD Hk Hv Hp.
  eexists _, _. split; [by eapply listParameterGroupParameters_run|].
  apply list_elem_of_filter. split; [|done].
  apply keepParameter_spec. right.
  rewrite createUserDefinedParameterMap_fold. apply userDefinedFold_is_Some.
  right. exists (paramBlock (aws.StringValue (Name p)) v), v. split.
  - unfold blocks. apply list_elem_of_fmap. by exists (aws.StringValue (Name p), v).
  - rewrite userDefinedEntry_paramBlock. by rewrite !decide_False.
Qed.

Lemma listParameterGroupParameters_keeps_declared_witness :
  ∃ result w',
    listParameterGroupParameters scriptedClient "memorydb_redis6" "pg"
      (createUserDefinedParameterMap (blocks [("D", "5")])) freshWorld
      = (inr result, w') ∧
    mkParam (Some "D") (Some "5") ∈ result.
Proof.
  apply (listParameterGroupParameters_keeps_declared scriptedClient "memorydb_redis6" "pg"
           [("D", "5")] freshWorld familyDefaults groupCurrent 0 0
           (mkParam (Some "D") (Some "5")) "5" eq_refl eq_refl); try done.
  - apply list_elem_of_here.
  - unfold groupCurrent. do 3 apply list_elem_of_further. apply list_elem_of_here.
Defined.

(** X9. A listing that cannot be fetched aborts the lister without a partial
    result. When the defaults cannot be fetched the group itself is not
    queried, and the error is the cause wrapped with the name of the default
    group, which keeps the AWS error code and the not-found kind of the
    cause; when the group cannot be fetched its error is returned as it is. *)
Theorem listParameterGroupParameters_errors {W} (meta : AWSClient W)
    (family name : string) (userDefined : gmap string string) (w : World W) :
  let defaultsFamily := "default." +:+ strings.ReplaceAll family "_" "-" in
  let conn := MemoryDBConn meta in
  (∀ e r1,
     DescribeParametersWithContext conn (Some defaultsFamily) (remote w) = (inl e, r1) →
     listParameterGroupParameters meta family name userDefined w =
       (inl (Wrapped "list defaults for family %s: %w" defaultsFamily e),
        {| remote := r1;
           calls := calls w ++ [CallDescribeParameters (Some defaultsFamily)] |}) ∧
     (∀ code, tfawserr.ErrCodeEquals
                (Some (Wrapped "list defaults for family %s: %w" defaultsFamily e)) code
              = tfawserr.ErrCodeEquals (Some e) code) ∧
     tfresource.NotFound (Some (Wrapped "list defaults for family %s: %w" defaultsFamily e))
       = tfresource.NotFound (Some e)) ∧
  (∀ defaults e r1 r2,
     DescribeParametersWithContext conn (Some defaultsFamily) (remote w)
       = (inr defaults, r1) →
     DescribeParametersWithContext conn (Some name) r1 = (inl e, r2) →
     listParameterGroupParameters meta family name userDefined w =
       (inl e,
        {| remote := r2;
           calls := (calls w ++ [CallDescribeParameters (Some defaultsFamily)])
                    ++ [CallDescribeParameters (Some name)] |})).
Proof.
  cbn zeta. split.
  - intros e r1 Hd. split; [|done].
    unfold listParameterGroupParameters, query, invoke, bind, ret, aws.String.
    by rewrite Hd.
  - intros defaults e r1 r2 Hd Hc.
    unfold listParameterGroupParameters, query, invoke, bind, ret, aws.String.
    rewrite Hd. cbn [remote calls]. by rewrite Hc.
Qed.

Lemma listParameterGroupParameters_errors_witness :
  (∃ e w', listParameterGroupParameters brokenClient "locked" "pg" ∅ freshWorld
             = (inl e, w') ∧ length (calls w') = 1) ∧
  (∃ w', listParameterGroupParameters brokenClient "memorydb_redis6" "locked" ∅ freshWorld
           = (inl accessDenied, w') ∧ length (calls w') = 2).
Proof.
  destruct (listParameterGroupParameters_errors brokenClient "locked" "pg" ∅ freshWorld)
    as [Hdefaults _].
  destruct (listParameterGroupParameters_errors brokenClient "memorydb_redis6" "locked" ∅
              freshWorld) as [_ Hcurrent].
  split.
  - destruct (Hdefaults accessDenied 0 eq_refl) as (Heq & _).
    eexists _, _. split; [exact Heq|done].
  - eexists. split; [exact (Hcurrent familyDefaults accessDenied 0 0 eq_refl eq_refl)|done].
Defined.

(** X10. A parameter whose name has no recorded default and is not
    user-declared is listed exactly when its current value is a non-empty
    string: a nil or empty value reads the same as the missing default. *)
Theorem listParameterGroupParameters_no_default {W} (meta : AWSClient W)
    (family name : string) (userDefined : gmap string string) (w : World W)
    (defaults current : list Param) (r1 r2 : W) (p : Param) :
  DescribeParametersWithContext (MemoryDBConn meta)
    (Some ("default." +:+ strings.ReplaceAll family "_" "-")) (remote w)
    = (inr defaults, r1) →
  DescribeParametersWithContext (MemoryDBConn meta) (Some name) r1
    = (inr current, r2) →
  (∀ d, d ∈ defaults → aws.StringValue (Name d) ≠ aws.StringValue (Name p)) →
  userDefined !! aws.StringValue (Name p) = None →
  p ∈ current →
  ∃ result w',
    listParameterGroupParameters meta family name userDefined w = (inr result, w') ∧
    (p ∈ result ↔ Value p ≠ None ∧ Value p ≠ Some "").
Proof.
  intros Hd Hc Hnodef Hnodecl Hp.
  eexists _, _. split; [by eapply listParameterGroupParameters_run|].
  rewrite list_elem_of_filter, keepParameter_spec.
  rewrite defaultValueByNameOf_absent, Hnodecl by done. cbn [default].
  split.
  - intros [[H|H] _]; [|by destruct H].
    destruct (Value p) as [s|]; [|done]. split; [done|]. intros [= ->]. done.
  - intros [H1 H2]. split; [|done]. left.
    destruct (Value p) as [s|]; [|done]. cbn. intros ->. done.
Qed.

Lemma listParameterGroupParameters_no_default_witness :
  ∃ result w',
    listParameterGroupParameters scriptedClient "memorydb_redis6" "pg" ∅ freshWorld
      = (inr result, w') ∧
    mkParam (Some "C") (Some "4") ∈ result.
Proof.
  destruct (listParameterGroupParameters_no_default scriptedClient "memorydb_redis6" "pg"
              ∅ freshWorld familyDefaults groupCurrent 0 0
              (mkParam (Some "C") (Some "4")) eq_refl eq_refl)
    as (result & w' & Heq & Hiff).
  - intros d Hd. unfold familyDefaults in Hd.
    repeat (apply elem_of_cons in Hd as [->|Hd]; [done|]). by apply elem_of_nil in Hd.
  - done.
  - unfold groupCurrent. do 2 apply list_elem_of_further. apply list_elem_of_here.
  - exists result, w'. split; [exact Heq|]. by apply Hiff.
Defined.

(** ** Read *)

(** X11. A read that finds the group and can fetch both listings and the
    tags returns no diagnostics and keeps the id. It takes the ARN,
    description, family and name from the group it found, looks the defaults
    up under the family of that group (not the configured one), decides what
    is user-declared from the parameters held before the read, and stores the
    flattened effective listing. It makes four calls, in this order: the
    lookup by id, the two listings, the tags of the group's ARN. *)
Theorem resourceParameterGroupRead_success {W} (meta : AWSClient W)
    (d : ResourceData) (w : World W) (group : ParameterGroup)
    (defaults current : list Param) (tags : gmap string string) (r0 r1 r2 r3 : W) :
  let hp := helpers meta in
  let rt := runtime meta in
  let defaultsFamily :=
    "default." +:+ strings.ReplaceAll (aws.StringValue (Family group)) "_" "-" in
  FindParameterGroupByName hp (Id d) (remote w) = (inr group, r0) →
  DescribeParametersWithContext (MemoryDBConn meta) (Some defaultsFamily) r0
    = (inr defaults, r1) →
  DescribeParametersWithContext (MemoryDBConn meta) (Some (Id d)) r1
    = (inr current, r2) →
  ListTags hp (aws.StringValue (ARN group)) r2 = (inr tags, r3) →
  ∃ d',
    resourceParameterGroupRead meta d w =
      ((d', []),
       {| remote := r3;
          calls := calls w ++ [CallFind (Id d);
                               CallDescribeParameters (Some defaultsFamily);
                               CallDescribeParameters (Some (Id d));
                               CallListTags (aws.StringValue (ARN group))] |}) ∧
    Id d' = Id d ∧
    d_arn d' = aws.StringValue (ARN group) ∧
    d_description d' = aws.StringValue (GroupDescription group) ∧
    d_family d' = aws.StringValue (Family group) ∧
    d_name d' = aws.StringValue (GroupName group) ∧
    d_parameter d' =
      setList rt (flattenParameters rt
        (filter (λ p, keepParameter (defaultValueByNameOf defaults)
                        (createUserDefinedParameterMap (d_parameter d)) p = true)
                current)) ∧
    d_parameter_old d' = d_parameter_old d ∧
    d_tags_all d' = IgnoreConfig hp (IgnoreAWS hp tags) ∧
    d_tags d' = RemoveDefaultConfig hp (IgnoreConfig hp (IgnoreAWS hp tags)).
Proof.
  cbn zeta. intros Hfind Hdef Hcur Htags.
  eexists. split.
  - unfold resourceParameterGroupRead. unfold invoke at 1. unfold bind at 1.
    rewrite Hfind. cbn [tfresource.NotFound]. rewrite andb_false_r. cbn zeta.
    unfold bind at 1.
    rewrite (listParameterGroupParameters_run meta _ (Id d) _ _ defaults current r1 r2)
      by (cbn [remote Set_group d_family]; done).
    unfold bind, invoke, ret. cbn [remote calls Set_parameter Set_group d_arn].
    rewrite Htags. rewrite <- !app_assoc. reflexivity.
  - done.
Qed.

Lemma resourceParameterGroupRead_success_witness :
  ∃ d' w',
    resourceParameterGroupRead scriptedClient manyData freshWorld = ((d', []), w') ∧
    Id d' = "pg" ∧ d_family d' = "memorydb_redis6" ∧ length (calls w') = 4.
Proof.
  destruct (resourceParameterGroupRead_success scriptedClient manyData freshWorld
              scriptedGroup familyDefaults groupCurrent ∅ 0 0 0 0
              eq_refl eq_refl eq_refl eq_refl)
    as (d' & Heq & Hid & _ & _ & Hfam & _).
  eexists d', _. split; [exact Heq|]. split; [exact Hid|]. split; [exact Hfam|done].
Defined.

Ltac destruct_run :=
  repeat (match goal with
          | |- context [match ?x with inl _ => _ | inr _ => _ end] => destruct x
          | |- context [match ?x with Some _ => _ | None => _ end] => destruct x
          | |- context [if ?b then _ else _] => destruct b
          | |- context [match ?x with pair _ _ => _ end] =>
              lazymatch x with
              | context [match _ with pair _ _ => _ end] => fail
              | _ => destruct x as [? ?]
              end
          end; cbv beta iota).

(** X12. A read only looks: in every case the calls it makes are lookups,
    listings and tag listings, the first one is the lookup of the group by
    the id, and there are at most four. *)
Theorem resourceParameterGroupRead_read_only {W} (meta : AWSClient W)
    (d : ResourceData) (w : World W) :
  ∃ new,
    calls (snd (resourceParameterGroupRead meta d w)) = calls w ++ new ∧
    forallb isReadCall new = true ∧
    head new = Some (CallFind (Id d)) ∧
    length new ≤ 4.
Proof.
  unfold resourceParameterGroupRead, listParameterGroupParameters, query, invoke,
    bind, ret. cbn zeta.
  destruct_run; cbn [snd calls remote]; rewrite <- ?app_assoc;
    eexists; (split; [reflexivity|]); cbn; repeat split; lia.
Qed.

(** X13. A read never gives the resource another id: the id is left as it
    is, or it is cleared, which happens only without diagnostics and only for
    a resource that is not new. The prior parameter set, the newness flag and
    the prior tags are never touched, and a read that reports an error leaves
    the id in place. *)
Theorem resourceParameterGroupRead_id {W} (meta : AWSClient W)
    (d : ResourceData) (w : World W) :
  ∃ d' ds w',
    resourceParameterGroupRead meta d w = ((d', ds), w') ∧
    (Id d' = Id d ∨ (Id d' = "" ∧ ds = [] ∧ IsNewResource d = false)) ∧
    (diag.HasError ds = true → Id d' = Id d) ∧
    IsNewResource d' = IsNewResource d ∧
    d_parameter_old d' = d_parameter_old d ∧
    d_tags_all_old d' = d_tags_all_old d.
Proof.
  unfold resourceParameterGroupRead, listParameterGroupParameters, query, invoke,
    bind, ret. cbn zeta.
  destruct (FindParameterGroupByName _ _ _) as [[e|group] r0].
  - destruct (IsNewResource d) eqn:Hnew; cbn [negb andb].
    + eexists _, _, _. split; [reflexivity|]. repeat split; eauto; done.
    + destruct (tfresource.NotFound (Some e));
        (eexists _, _, _; split; [reflexivity|]); cbn; repeat split; eauto; done.
  - cbn [tfresource.NotFound]. rewrite andb_false_r.
    destruct_run; (eexists _, _, _; split; [reflexivity|]); cbn; repeat split; eauto; done.
Qed.

(** ** The retry budget *)

Lemma retryLoop_last {W} (meta : AWSClient W) (name : string)
    (parameters : list ParameterNameValue) (n : nat) : ∀ w : World W,
  let conn := MemoryDBConn meta in
  let names := map ParameterName parameters in
  ∃ k, 1 ≤ k ≤ S n ∧
    resource.retryLoop n
      (err <~ invoke (CallReset (aws.String name) names)
                     (ResetParameterGroupWithContext conn (aws.String name) names) ;;
       match err with
       | Some e =>
           if tfawserr.ErrMessageContains err
                ErrCodeInvalidParameterGroupStateFault " has pending changes"
           then ret (Some (resource.RetryableError e))
           else ret (Some (resource.NonRetryableError e))
       | None => ret None
       end) w =
      (resetResponse conn (Some name) names (k - 1) (remote w),
       {| remote := resetStateAfter conn (Some name) names k (remote w);
          calls := calls w ++ replicate k (CallReset (Some name) names) |}) ∧
    (∀ i, i < k - 1 →
       ∃ e, resetResponse conn (Some name) names i (remote w) = Some e ∧
            isPendingChanges e = true) ∧
    (k ≤ n → ∀ e, resetResponse conn (Some name) names (k - 1) (remote w) = Some e →
                  isPendingChanges e = false).
Proof.
  cbn zeta. induction n as [|n IH]; intros w; rewrite retryLoop_step; cbn zeta.
  - exists 1. split; [lia|]. cbn [Nat.sub replicate].
    destruct (resetResponse _ _ _ 0 (remote w)) as [e|] eqn:He.
    + split; [by destruct (isPendingChanges e)|]. split; [intros i Hi|]; lia.
    + split; [done|]. split; [intros i Hi|]; lia.
  - destruct (resetResponse _ _ _ 0 (remote w)) as [e|] eqn:He.
    + destruct (isPendingChanges e) eqn:Hp.
      * destruct (IH {| remote := resetStateAfter (MemoryDBConn meta) (Some name)
                                    (map ParameterName parameters) 1 (remote w);
                        calls := calls w ++ [CallReset (Some name)
                                               (map ParameterName parameters)] |})
          as (k & Hk & Hrun & Hearlier & Hlast).
        exists (S k). split; [lia|]. rewrite Hrun. cbn [remote calls].
        replace (S k - 1) with (S (k - 1)) by lia.
        split; [by rewrite <- app_assoc|]. split.
        -- intros [|i] Hi; [eauto|]. apply (Hearlier i). lia.
        -- intros Hle. apply Hlast. lia.
      * exists 1. cbn [Nat.sub replicate]. rewrite He.
        split; [lia|]. split; [done|]. split; [intros i Hi; lia|].
        intros _ e' [= <-]. done.
    + exists 1. cbn [Nat.sub replicate]. rewrite He.
      split; [lia|]. split; [done|]. split; [intros i Hi; lia|done].
Qed.

(** X14. Whatever the remote answers, a reset makes at least one and at most
    one more call than the budget has retries, all with the same request; its
    result is the answer to the last call; every earlier answer was the
    pending-changes conflict; and unless the budget is used up the last
    answer is not that conflict. *)
Theorem resetParameterGroupParameters_attempts {W} (meta : AWSClient W) (name : string)
    (parameters : list ParameterNameValue) (w : World W) :
  let conn := MemoryDBConn meta in
  let names := map ParameterName parameters in
  let budget := retryAttempts (runtime meta) (30 * resource.Second) in
  ∃ k, 1 ≤ k ≤ S budget ∧
    resetParameterGroupParameters meta name parameters w =
      (resetResponse conn (Some name) names (k - 1) (remote w),
       {| remote := resetStateAfter conn (Some name) names k (remote w);
          calls := calls w ++ replicate k (CallReset (Some name) names) |}) ∧
    (∀ i, i < k - 1 →
       ∃ e, resetResponse conn (Some name) names i (remote w) = Some e ∧
            isPendingChanges e = true) ∧
    (k ≤ budget → ∀ e, resetResponse conn (Some name) names (k - 1) (remote w) = Some e →
                       isPendingChanges e = false).
Proof. cbn zeta. rewrite resetParameterGroupParameters_unfold. apply retryLoop_last. Qed.

(** X15. When the remote keeps answering with the pending-changes conflict
    until the budget is used up, the reset gives up: it returns the conflict
    of the last attempt after one call more than the budget has retries. *)
Theorem resetParameterGroupParameters_gives_up {W} (meta : AWSClient W) (name : string)
    (parameters : list ParameterNameValue) (w : World W) :
  let conn := MemoryDBConn meta in
  let names := map ParameterName parameters in
  let budget := retryAttempts (runtime meta) (30 * resource.Second) in
  (∀ i, i ≤ budget →
     ∃ e, resetResponse conn (Some name) names i (remote w) = Some e ∧
          isPendingChanges e = true) →
  ∃ e, isPendingChanges e = true ∧
    resetParameterGroupParameters meta name parameters w =
      (Some e,
       {| remote := resetStateAfter conn (Some name) names (S budget) (remote w);
          calls := calls w ++ replicate (S budget) (CallReset (Some name) names) |}).
Proof.
  cbn zeta. intros Hall. rewrite resetParameterGroupParameters_unfold.
  destruct (retryLoop_last meta name parameters
              (retryAttempts (runtime meta) (30 * resource.Second)) w)
    as (k & Hk & Hrun & _ & Hlast). cbn zeta in Hrun, Hlast.
  destruct (decide (k = S (retryAttempts (runtime meta) (30 * resource.Second))))
    as [->|Hne].
  - destruct (Hall (retryAttempts (runtime meta) (30 * resource.Second)) ltac:(lia))
      as (e & He & Hp).
    exists e. split; [done|]. rewrite Hrun.
    replace (S (retryAttempts (runtime meta) (30 * resource.Second)) - 1)
      with (retryAttempts (runtime meta) (30 * resource.Second)) by lia.
    by rewrite He.
  - destruct (Hall (k - 1) ltac:(lia)) as (e & He & Hp).
    rewrite (Hlast ltac:(lia) e He) in Hp. done.
Qed.

Lemma resetParameterGroupParameters_gives_up_witness :
  ∃ w', resetParameterGroupParameters brokenClient "pg" [pnvOf ("hz", "10")] freshWorld
          = (Some pendingChanges, w') ∧
        length (calls w') = 31.
Proof.
  destruct (resetParameterGroupParameters_gives_up brokenClient "pg" [pnvOf ("hz", "10")]
              freshWorld) as (e & Hp & Hrun).
  - intros i _. exists pendingChanges. split; [|by vm_compute].
    unfold resetResponse. reflexivity.
  - assert (He : e = pendingChanges).
    { pose proof (f_equal fst Hrun) as H1. vm_compute in H1. by injection H1. }
    subst e. eexists. split; [exact Hrun|]. by vm_compute.
Defined.

(** ** The update callback against any remote *)

Lemma chunksOf_tail {A} fuel (x : A) l s :
  s ∈ chunksOf fuel (drop maxParams (x :: l)) → s ∈ chunksOf (S fuel) (x :: l).
Proof. intros H. cbn [chunksOf]. by right. Qed.

Lemma chunksOf_head {A} fuel (x : A) l :
  take maxParams (x :: l) ∈ chunksOf (S fuel) (x :: l).
Proof. cbn [chunksOf]. by left. Qed.

Lemma resetLoop_any {W} (meta : AWSClient W) (name : string) fuel :
  ∀ toRemove (w : World W),
  length toRemove ≤ fuel →
  ∃ newR,
    calls (snd (resetLoop meta fuel name toRemove w)) = calls w ++ newR ∧
    Forall (λ c, ∃ s, s ∈ chunksOf fuel toRemove ∧
                      c = CallReset (Some name) (map ParameterName s)) newR ∧
    (toRemove ≠ [] → newR ≠ []).
Proof.
  induction fuel as [|fuel IH]; intros [|x l] w Hlen; cbn in Hlen; try lia.
  - exists []. by rewrite app_nil_r.
  - exists []. by rewrite app_nil_r.
  - cbn [resetLoop]. rewrite slice_take_drop.
    replace (0 <? length (x :: l)) with true by done.
    unfold bind at 1. rewrite resetParameterGroupParameters_unfold.
    destruct (retryLoop_last meta name (take maxParams (x :: l))
                (retryAttempts (runtime meta) (30 * resource.Second)) w)
      as (k & Hk & Hrun & _ & _). cbn zeta in Hrun. rewrite Hrun. clear Hrun.
    set (resp := resetResponse _ _ _ _ _).
    assert (Hfirst : Forall (λ c, ∃ s, s ∈ chunksOf (S fuel) (x :: l) ∧
                                      c = CallReset (Some name) (map ParameterName s))
                       (replicate k (CallReset (Some name)
                          (map ParameterName (take maxParams (x :: l)))))).
    { apply Forall_replicate. eexists. split; [apply chunksOf_head|done]. }
    destruct resp as [e|].
    + eexists. split; [done|]. split; [done|]. intros _.
      destruct k; [lia|done].
    + match goal with |- context [resetLoop _ _ _ _ ?w1] =>
        destruct (IH (drop maxParams (x :: l)) w1) as (newR & Hc & Hall & _) end.
      { rewrite length_drop. cbn. unfold maxParams. lia. }
      eexists. rewrite Hc. cbn [calls]. rewrite <- app_assoc.
      split; [done|]. split.
      * apply Forall_app. split; [done|].
        eapply Forall_impl; [exact Hall|]. intros c (s & Hs & ->).
        exists s. split; [by apply chunksOf_tail|done].
      * intros _. destruct k; [lia|done].
Qed.

Lemma modifyLoop_any {W} (meta : AWSClient W) (name : string) fuel :
  ∀ toAdd (w : World W),
  length toAdd ≤ fuel →
  ∃ k,
    calls (snd (modifyLoop meta fuel name toAdd w)) =
      calls w ++ map (CallUpdate (Some name)) (take k (chunksOf fuel toAdd)) ∧
    (fst (modifyLoop meta fuel name toAdd w) = None → k = length (chunksOf fuel toAdd)).
Proof.
  induction fuel as [|fuel IH]; intros [|x l] w Hlen; cbn in Hlen; try lia.
  - exists 0. by rewrite app_nil_r.
  - exists 0. by rewrite app_nil_r.
  - cbn [modifyLoop]. rewrite slice_take_drop.
    replace (0 <? length (x :: l)) with true by done.
    unfold bind. rewrite modifyParameterGroupParameters_run.
    destruct (UpdateParameterGroupWithContext _ _ _ _) as [[e|] r]; cbn [fst snd].
    + exists 1. cbn [chunksOf take map]. rewrite take_0. done.
    + match goal with |- context [modifyLoop _ _ _ _ ?w1] =>
        destruct (IH (drop maxParams (x :: l)) w1) as (k & Hc & Hnone) end.
      { rewrite length_drop. cbn. unfold maxParams. lia. }
      exists (S k). rewrite Hc. cbn [calls chunksOf take map length].
      rewrite <- app_assoc. split; [done|]. intros H. by rewrite Hnone.
Qed.

Lemma blocks_insertAll_eq O N : blocks O = blocks N → insertAll O ∅ = insertAll N ∅.
Proof.
  intros H. pose proof (expandInto_blocks O ∅) as E1.
  pose proof (expandInto_blocks N ∅) as E2. rewrite H in E1. rewrite E1 in E2.
  by injection E2.
Qed.

(** X16. The order of the calls of an update, whatever the remote answers.
    For declared sets the callback does not panic, and its calls come in
    three runs: reset calls, then update calls, then calls that are neither.
    Every reset call carries the names of one of the slices of the list to
    reset; the update calls carry the first slices of the list to apply, one
    call each and in order; and all of them address the group by the value
    of the name attribute. When the callback went on to the third run, every
    slice to apply has been sent. *)
Theorem resourceParameterGroupUpdate_call_order {W} (meta : AWSClient W)
    (d : ResourceData) (w : World W) (O N : list (string * string)) :
  d_parameter_old d = blocks O →
  d_parameter d = blocks N →
  ∃ toRemove toAdd result w' newR newU newQ k,
    ParameterChanges (mapOrder (runtime meta)) (ISet (blocks O)) (ISet (blocks N))
      = Some (toRemove, toAdd) ∧
    resourceParameterGroupUpdate meta d w = (Some result, w') ∧
    calls w' = calls w ++ newR ++ newU ++ newQ ∧
    Forall (λ c, ∃ s, s ∈ chunksOf (length toRemove) toRemove ∧
                      c = CallReset (Some (d_name d)) (map ParameterName s)) newR ∧
    newU = map (CallUpdate (Some (d_name d)))
               (take k (chunksOf (length toAdd) toAdd)) ∧
    resetSlices newQ = [] ∧ updateSlices newQ = [] ∧
    (newQ ≠ [] → newU = map (CallUpdate (Some (d_name d)))
                            (chunksOf (length toAdd) toAdd)).
Proof.
  intros HO HN.
  pose (ord := mapOrder (runtime meta)).
  exists (removeOf ord (insertAll O ∅) (insertAll N ∅)),
         (addOrUpdateOf ord (insertAll O ∅) (insertAll N ∅)).
  assert (HPC : ParameterChanges ord (ISet (blocks O)) (ISet (blocks N))
                = Some (removeOf ord (insertAll O ∅) (insertAll N ∅),
                        addOrUpdateOf ord (insertAll O ∅) (insertAll N ∅))).
  { rewrite ParameterChanges_unfold. cbn [entriesOf]. by rewrite !expandInto_blocks. }
  unfold resourceParameterGroupUpdate. rewrite HO, HN.
  case_bool_decide as Hchange.
  - fold ord. rewrite HPC.
    set (toRemove := removeOf ord (insertAll O ∅) (insertAll N ∅)).
    set (toAdd := addOrUpdateOf ord (insertAll O ∅) (insertAll N ∅)).
    unfold bind at 1.
    destruct (resetLoop_any meta (d_name d) (length toRemove) toRemove w)
      as (newR & Hc1 & HallR & _); [done|].
    destruct (resetLoop meta (length toRemove) (d_name d) toRemove w) as [[e|] w1];
      cbn [snd] in Hc1.
    { eexists _, w1, newR, [], [], 0. unfold ret. rewrite take_0.
      repeat split; try done. by rewrite Hc1, !app_nil_r. }
    unfold bind at 1.
    destruct (modifyLoop_any meta (d_name d) (length toAdd) toAdd w1)
      as (k & Hc2 & Hnone); [done|].
    destruct (modifyLoop meta (length toAdd) (d_name d) toAdd w1) as [[e|] w2];
      cbn [fst snd] in Hc2, Hnone.
    { eexists _, w2, newR, _, [], k. unfold ret.
      repeat split; try done. by rewrite Hc2, Hc1, !app_nil_r, <- app_assoc. }
    unfold bind, ret.
    destruct (updateTagsAndRead_quiet meta d w2) as (newQ & Hc3 & Hr3 & Hu3).
    destruct (updateTagsAndRead meta d w2) as [r w3]. cbn [snd] in Hc3.
    eexists r, w3, newR, _, newQ, k.
    repeat split; try done.
    + by rewrite Hc3, Hc2, Hc1, <- !app_assoc.
    + intros _. rewrite (Hnone eq_refl). by rewrite firstn_all.
  - unfold bind, ret.
    destruct (updateTagsAndRead_quiet meta d w) as (newQ & Hc3 & Hr3 & Hu3).
    destruct (updateTagsAndRead meta d w) as [r w3]. cbn [snd] in Hc3.
    eexists r, w3, [], [], newQ, 0. rewrite take_0.
    split; [exact HPC|].
    repeat split; try done.
    intros _. rewrite (blocks_insertAll_eq _ _ Hchange), addOrUpdateOf_self. done.
Qed.

Lemma resourceParameterGroupUpdate_call_order_witness :
  ∃ result w' newR newQ,
    resourceParameterGroupUpdate scriptedClient manyData freshWorld = (Some result, w') ∧
    calls w' = newR ++ newQ ∧
    length (resetSlices newR) = length newR ∧ resetSlices newQ = [].
Proof.
  destruct (resourceParameterGroupUpdate_call_order scriptedClient manyData freshWorld
              (manyDeclared 41) (manyDeclared 0) eq_refl eq_refl)
    as (toRemove & toAdd & result & w' & newR & newU & newQ & k
        & HPC & Hrun & Hcalls & HallR & HU & HrQ & _ & _).
  vm_compute in HPC. injection HPC as <- <-.
  cbn [chunksOf take map length] in HU. rewrite take_nil in HU. subst newU.
  exists result, w', newR, newQ. split; [exact Hrun|]. split; [exact Hcalls|].
  split; [|exact HrQ].
  clear -HallR. induction HallR as [|c cs (s & _ & ->) _ IH]; [done|].
  unfold resetSlices in *. cbn [omap list_omap length]. by rewrite IH.
Defined.

Lemma removeOf_nonempty ord O N k :
  k ∈ O.*1 → k ∉ N.*1 → removeOf ord (insertAll O ∅) (insertAll N ∅) ≠ [].
Proof.
  intros HO HN Hnil.
  assert (Hin : k ∈ pnvName <$> removeOf ord (insertAll O ∅) (insertAll N ∅)).
  { apply removeOf_name_elem; [intros k' p; apply insertAll_keyed|].
    split; [by apply insertAll_lookup_is_Some|by apply insertAll_lookup_None]. }
  rewrite Hnil in Hin. by apply elem_of_nil in Hin.
Qed.

Lemma addOrUpdateOf_nonempty ord O N k v :
  (k, v) ∈ N → k ∉ O.*1 → addOrUpdateOf ord (insertAll O ∅) (insertAll N ∅) ≠ [].
Proof.
  intros HN HO Hnil.
  assert (Hin : k ∈ pnvName <$> addOrUpdateOf ord (insertAll O ∅) (insertAll N ∅)).
  { apply addOrUpdateOf_name_elem; [intros k' p; apply insertAll_keyed|].
    unfold changedKey.
    destruct (insertAll_lookup_is_Some N ∅ k) as [p ->].
    { apply list_elem_of_fmap. by exists (k, v). }
    apply insertAll_lookup_None in HO. by rewrite HO. }
  rewrite Hnil in Hin. by apply elem_of_nil in Hin.
Qed.

Lemma blocks_neq_removed O N k : k ∈ O.*1 → k ∉ N.*1 → blocks O ≠ blocks N.
Proof.
  intros HO HN Heq. apply blocks_insertAll_eq in Heq.
  apply insertAll_lookup_None in HN. rewrite <- Heq in HN.
  destruct (insertAll_lookup_is_Some O ∅ k HO) as [p Hp]. congruence.
Qed.

Lemma blocks_neq_added O N k v : (k, v) ∈ N → k ∉ O.*1 → blocks O ≠ blocks N.
Proof.
  intros HN HO Heq. apply blocks_insertAll_eq in Heq.
  apply insertAll_lookup_None in HO. rewrite Heq in HO.
  destruct (insertAll_lookup_is_Some N ∅ k) as [p Hp]; [|congruence].
  apply list_elem_of_fmap. by exists (k, v).
Qed.

Lemma resetLoop_cons {W} (meta : AWSClient W) name fuel x l (w : World W) :
  resetLoop meta (S fuel) name (x :: l) w =
  let (err, w1) := resetParameterGroupParameters meta name (take maxParams (x :: l)) w in
  match err with
  | Some e => (Some e, w1)
  | None => resetLoop meta fuel name (drop maxParams (x :: l)) w1
  end.
Proof.
  cbn [resetLoop]. rewrite slice_take_drop.
  replace (0 <? length (x :: l)) with true by done.
  unfold bind, ret. destruct (resetParameterGroupParameters _ _ _ _) as [[e|] w1]; done.
Qed.

Lemma modifyLoop_cons {W} (meta : AWSClient W) name fuel x l (w : World W) :
  modifyLoop meta (S fuel) name (x :: l) w =
  let (err, w1) := modifyParameterGroupParameters meta name (take maxParams (x :: l)) w in
  match err with
  | Some e => (Some e, w1)
  | None => modifyLoop meta fuel name (drop maxParams (x :: l)) w1
  end.
Proof.
  cbn [modifyLoop]. rewrite slice_take_drop.
  replace (0 <? length (x :: l)) with true by done.
  unfold bind, ret. destruct (modifyParameterGroupParameters _ _ _ _) as [[e|] w1]; done.
Qed.

(** X17. A reset that fails for good stops the update before anything is
    applied: when some declared name is dropped and the remote answers the
    reset with an error other than the pending-changes conflict, the callback
    returns the resetting error that carries it, leaves the resource data as
    it was, and has made that one reset call and no other call. *)
Theorem resourceParameterGroupUpdate_reset_failure {W} (meta : AWSClient W)
    (d : ResourceData) (w : World W) (O N : list (string * string))
    (k0 : string) (e : error) :
  d_parameter_old d = blocks O →
  d_parameter d = blocks N →
  k0 ∈ O.*1 → k0 ∉ N.*1 →
  (∀ n ns r, fst (ResetParameterGroupWithContext (MemoryDBConn meta) n ns r) = Some e) →
  isPendingChanges e = false →
  ∃ s w',
    resourceParameterGroupUpdate meta d w =
      (Some (d, diag.Errorf
                  "error resetting MemoryDB Parameter Group (%s) parameters to defaults: %s"
                  [FString (Id d); FError e]), w') ∧
    calls w' = calls w ++ [CallReset (Some (d_name d)) s] ∧
    s ≠ [] ∧ length s ≤ 20.
Proof.
  intros HO HN Hk0 Hk0' Hfail Hnp.
  unfold resourceParameterGroupUpdate. rewrite HO, HN.
  rewrite bool_decide_eq_true_2 by (by eapply blocks_neq_removed).
  rewrite ParameterChanges_unfold. cbn [entriesOf]. rewrite !expandInto_blocks.
  pose proof (removeOf_nonempty (mapOrder (runtime meta)) O N k0 Hk0 Hk0') as Hne.
  destruct (removeOf _ _ _) as [|x l]; [done|]. clear Hne.
  unfold bind at 1. change (length (x :: l)) with (S (length l)).
  rewrite resetLoop_cons, resetParameterGroupParameters_unfold, retryLoop_step.
  cbn zeta. unfold resetResponse. cbn [resetStateAfter]. rewrite Hfail, Hnp.
  unfold ret. eexists _, _. split; [reflexivity|]. split; [done|].
  split; [done|]. rewrite length_map, length_take. unfold maxParams. lia.
Qed.

Lemma resourceParameterGroupUpdate_reset_failure_witness :
  ∃ ds w',
    resourceParameterGroupUpdate deniedClient
      (changeData "pg" false [("hz", "10")] []) freshWorld
      = (Some (changeData "pg" false [("hz", "10")] [], ds), w') ∧
    diag.HasError ds = true ∧ length (calls w') = 1.
Proof.
  destruct (resourceParameterGroupUpdate_reset_failure deniedClient
              (changeData "pg" false [("hz", "10")] []) freshWorld
              [("hz", "10")] [] "hz" accessDenied eq_refl eq_refl)
    as (s & w' & Hrun & Hcalls & _).
  - apply list_elem_of_here.
  - apply not_elem_of_nil.
  - done.
  - by vm_compute.
  - eexists _, w'. split; [exact Hrun|]. split; [done|]. by rewrite Hcalls.
Defined.

(** X18. Nothing is rolled back. When the resets are accepted and the remote
    then refuses the update, the callback has sent every reset slice and
    exactly one update call, the first slice to apply; it returns the
    modifying error that carries the cause, leaves the resource data as it
    was, and reads nothing. *)
Theorem resourceParameterGroupUpdate_modify_failure {W} (meta : AWSClient W)
    (d : ResourceData) (w : World W) (O N : list (string * string))
    (k0 v0 : string) (e : error) :
  d_parameter_old d = blocks O →
  d_parameter d = blocks N →
  (k0, v0) ∈ N → k0 ∉ O.*1 →
  (∀ n ns r, fst (ResetParameterGroupWithContext (MemoryDBConn meta) n ns r) = None) →
  (∀ n ps r, fst (UpdateParameterGroupWithContext (MemoryDBConn meta) n ps r) = Some e) →
  ∃ toRemove toAdd w',
    ParameterChanges (mapOrder (runtime meta)) (ISet (blocks O)) (ISet (blocks N))
      = Some (toRemove, toAdd) ∧
    resourceParameterGroupUpdate meta d w =
      (Some (d, diag.Errorf "error modifying MemoryDB Parameter Group (%s) parameters: %s"
                  [FString (Id d); FError e]), w') ∧
    calls w' =
      (calls w ++ map (λ s, CallReset (Some (d_name d)) (map ParameterName s))
                      (chunksOf (length toRemove) toRemove))
      ++ [CallUpdate (Some (d_name d)) (take maxParams toAdd)] ∧
    toAdd ≠ [].
Proof.
  intros HO HN Hk0 Hk0' Hreset Hfail.
  pose (ord := mapOrder (runtime meta)).
  exists (removeOf ord (insertAll O ∅) (insertAll N ∅)),
         (addOrUpdateOf ord (insertAll O ∅) (insertAll N ∅)).
  pose proof (addOrUpdateOf_nonempty ord O N k0 v0 Hk0 Hk0') as Hne.
  assert (HPC : ParameterChanges ord (ISet (blocks O)) (ISet (blocks N))
                = Some (removeOf ord (insertAll O ∅) (insertAll N ∅),
                        addOrUpdateOf ord (insertAll O ∅) (insertAll N ∅))).
  { rewrite ParameterChanges_unfold. cbn [entriesOf]. by rewrite !expandInto_blocks. }
  unfold resourceParameterGroupUpdate. rewrite HO, HN.
  rewrite bool_decide_eq_true_2 by (by eapply blocks_neq_added).
  fold ord. rewrite HPC.
  set (toRemove := removeOf ord (insertAll O ∅) (insertAll N ∅)).
  set (toAdd := addOrUpdateOf ord (insertAll O ∅) (insertAll N ∅)) in *.
  unfold bind at 1.
  destruct (resetLoop_ok meta (d_name d) Hreset (length toRemove) toRemove w)
    as (w1 & -> & Hc1); [done|].
  unfold bind at 1.
  destruct toAdd as [|x l]; [done|].
  change (length (x :: l)) with (S (length l)).
  rewrite modifyLoop_cons, modifyParameterGroupParameters_run, Hfail.
  unfold ret. eexists. split; [done|]. split; [reflexivity|].
  cbn [calls]. by rewrite Hc1.
Qed.

Lemma resourceParameterGroupUpdate_modify_failure_witness :
  ∃ ds w',
    resourceParameterGroupUpdate updateDeniedClient
      (changeData "pg" false [("hz", "10")] [("timeout", "30")]) freshWorld
      = (Some (changeData "pg" false [("hz", "10")] [("timeout", "30")], ds), w') ∧
    diag.HasError ds = true ∧ length (calls w') = 2.
Proof.
  destruct (resourceParameterGroupUpdate_modify_failure updateDeniedClient
              (changeData "pg" false [("hz", "10")] [("timeout", "30")]) freshWorld
              [("hz", "10")] [("timeout", "30")] "timeout" "30" accessDenied
              eq_refl eq_refl)
    as (toRemove & toAdd & w' & HPC & Hrun & Hcalls & _).
  - apply list_elem_of_here.
  - intros H. apply list_elem_of_singleton in H. discriminate H.
  - done.
  - done.
  - eexists _, w'. split; [exact Hrun|]. split; [done|].
    vm_compute in HPC. injection HPC as <- <-. by rewrite Hcalls.
Defined.

Lemma resourceParameterGroupRead_calls {W} (meta : AWSClient W)
    (d : ResourceData) (w : World W) :
  ∃ new,
    calls (snd (resourceParameterGroupRead meta d w)) = calls w ++ new ∧
    forallb isReadCall new = true.
Proof.
  unfold resourceParameterGroupRead, listParameterGroupParameters, query, invoke,
    bind, ret. cbn zeta.
  destruct_run; cbn [snd calls remote]; rewrite <- ?app_assoc;
    eexists; (split; [reflexivity|]); done.
Qed.

(** X19. An update without a change of the declared parameters and of the
    tags writes nothing: it does not panic, and every call it makes is a
    lookup, a listing or a tag listing. *)
Theorem resourceParameterGroupUpdate_no_change {W} (meta : AWSClient W)
    (d : ResourceData) (w : World W) :
  d_parameter_old d = d_parameter d →
  d_tags_all_old d = d_tags_all d →
  ∃ result w' new,
    resourceParameterGroupUpdate meta d w = (Some result, w') ∧
    (result, w') = resourceParameterGroupRead meta d w ∧
    calls w' = calls w ++ new ∧
    forallb isReadCall new = true.
Proof.
  intros Hp Ht.
  unfold resourceParameterGroupUpdate, updateTagsAndRead.
  rewrite bool_decide_eq_false_2 by (intros H; by apply H).
  rewrite bool_decide_eq_false_2 by (intros H; by apply H).
  unfold bind, ret.
  destruct (resourceParameterGroupRead_calls meta d w) as (new & Hc & Hall).
  destruct (resourceParameterGroupRead meta d w) as [r w'].
  by exists r, w', new.
Qed.

Lemma resourceParameterGroupUpdate_no_change_witness :
  ∃ result w',
    resourceParameterGroupUpdate scriptedClient goneData freshWorld = (Some result, w') ∧
    forallb isReadCall (calls w') = true.
Proof.
  destruct (resourceParameterGroupUpdate_no_change scriptedClient goneData freshWorld
              eq_refl eq_refl) as (result & w' & new & Hrun & _ & Hcalls & Hall).
  exists result, w'. split; [exact Hrun|]. by rewrite Hcalls.
Defined.

(** ** Create *)

Lemma batchTargets_app a b : batchTargets (a ++ b) = batchTargets a ++ batchTargets b.
Proof. apply omap_app. Qed.

Lemma batchTargets_quiet new :
  resetSlices new = [] → updateSlices new = [] → batchTargets new = [].
Proof.
  induction new as [|c new IH]; [done|].
  destruct c; cbn; try done; apply IH.
Qed.

Lemma batchTargets_updates name (cs : list (list ParameterNameValue)) :
  Forall (λ n, n = name) (batchTargets (map (CallUpdate name) cs)).
Proof.
  induction cs as [|c cs IH]; [constructor|].
  change (batchTargets (map (CallUpdate name) (c :: cs)))
    with (name :: batchTargets (map (CallUpdate name) cs)).
  by constructor.
Qed.

Lemma batchTargets_resets name (P : list ParameterNameValue → Prop) (newR : list Call) :
  Forall (λ c, ∃ s, P s ∧ c = CallReset name (map ParameterName s)) newR →
  Forall (λ n, n = name) (batchTargets newR).
Proof.
  induction 1 as [|c cs (s & _ & ->) _ IH]; [constructor|].
  change (batchTargets (CallReset name (map ParameterName s) :: cs))
    with (name :: batchTargets cs).
  by constructor.
Qed.

Lemma updateTagsAndRead_id {W} (meta : AWSClient W) (d : ResourceData) (w : World W) :
  let d' := fst (fst (updateTagsAndRead meta d w)) in
  Id d' = Id d ∨ (Id d' = "" ∧ IsNewResource d = false).
Proof.
  cbn zeta.
  unfold updateTagsAndRead, resourceParameterGroupRead, listParameterGroupParameters,
    query, invoke, bind, ret. cbn zeta.
  destruct (bool_decide _).
  - destruct (UpdateTags _ _ _ _ _) as [[e|] r]; [by left|].
    destruct (FindParameterGroupByName _ _ _) as [[e|group] r0].
    + destruct (IsNewResource d) eqn:Hnew; cbn [negb andb]; [by left|].
      destruct (tfresource.NotFound (Some e)); cbn; eauto.
    + cbn [tfresource.NotFound]. rewrite andb_false_r. destruct_run; by left.
  - destruct (FindParameterGroupByName _ _ _) as [[e|group] r0].
    + destruct (IsNewResource d) eqn:Hnew; cbn [negb andb]; [by left|].
      destruct (tfresource.NotFound (Some e)); cbn; eauto.
    + cbn [tfresource.NotFound]. rewrite andb_false_r. destruct_run; by left.
Qed.

Lemma resourceParameterGroupUpdate_targets {W} (meta : AWSClient W)
    (d : ResourceData) (w : World W) (O N : list (string * string)) :
  d_parameter_old d = blocks O →
  d_parameter d = blocks N →
  ∃ result w' new,
    resourceParameterGroupUpdate meta d w = (Some result, w') ∧
    calls w' = calls w ++ new ∧
    Forall (λ n, n = Some (d_name d)) (batchTargets new) ∧
    (Id (fst result) = Id d ∨ (Id (fst result) = "" ∧ IsNewResource d = false)).
Proof.
  intros HO HN.
  unfold resourceParameterGroupUpdate. rewrite HO, HN.
  assert (Htail : ∀ w0 newB,
            calls w0 = calls w ++ newB →
            Forall (λ n, n = Some (d_name d)) (batchTargets newB) →
            ∃ result w' new,
              (let (r, w1) := updateTagsAndRead meta d w0 in (Some r, w1))
                = (Some result, w') ∧
              calls w' = calls w ++ new ∧
              Forall (λ n, n = Some (d_name d)) (batchTargets new) ∧
              (Id (fst result) = Id d ∨ (Id (fst result) = "" ∧ IsNewResource d = false))).
  { intros w0 newB Hc HB.
    destruct (updateTagsAndRead_quiet meta d w0) as (newQ & Hc3 & Hr3 & Hu3).
    pose proof (updateTagsAndRead_id meta d w0) as Hid. cbn zeta in Hid.
    destruct (updateTagsAndRead meta d w0) as [r w3]. cbn [fst snd] in Hc3, Hid.
    exists r, w3, (newB ++ newQ). split; [done|].
    split; [by rewrite Hc3, Hc, <- app_assoc|]. split; [|done].
    rewrite batchTargets_app, (batchTargets_quiet newQ) by done. by rewrite app_nil_r. }
  case_bool_decide as Hchange.
  - rewrite ParameterChanges_unfold. cbn [entriesOf]. rewrite !expandInto_blocks.
    set (toRemove := removeOf _ _ _). set (toAdd := addOrUpdateOf _ _ _).
    unfold bind at 1.
    destruct (resetLoop_any meta (d_name d) (length toRemove) toRemove w)
      as (newR & Hc1 & HallR & _); [done|].
    assert (HR : Forall (λ n, n = Some (d_name d)) (batchTargets newR)).
    { exact (batchTargets_resets _ (λ s, s ∈ chunksOf (length toRemove) toRemove)
               newR HallR). }
    destruct (resetLoop meta (length toRemove) (d_name d) toRemove w) as [[e|] w1];
      cbn [snd] in Hc1.
    { unfold ret. eexists _, w1, newR. split; [reflexivity|]. cbn [fst]. eauto. }
    unfold bind at 1.
    destruct (modifyLoop_any meta (d_name d) (length toAdd) toAdd w1)
      as (k & Hc2 & _); [done|].
    assert (HU : Forall (λ n, n = Some (d_name d))
                   (batchTargets (map (CallUpdate (Some (d_name d)))
                                      (take k (chunksOf (length toAdd) toAdd))))).
    { apply batchTargets_updates. }
    destruct (modifyLoop meta (length toAdd) (d_name d) toAdd w1) as [[e|] w2];
      cbn [snd] in Hc2.
    { unfold ret. eexists _, w2, _. split; [reflexivity|]. cbn [fst].
      split; [by rewrite Hc2, Hc1, <- app_assoc|]. split; [|eauto].
      rewrite batchTargets_app. by apply Forall_app. }
    unfold bind at 1. unfold ret.
    apply (Htail w2 (newR ++ map (CallUpdate (Some (d_name d)))
                                 (take k (chunksOf (length toAdd) toAdd)))).
    + by rewrite Hc2, Hc1, <- app_assoc.
    + rewrite batchTargets_app. by apply Forall_app.
  - unfold bind, ret. apply (Htail w []); [by rewrite app_nil_r|constructor].
Qed.

(** X20. Create sends the create request first, for the name made from the
    name and the prefix. When the request fails nothing else is called and
    the resource data, the id included, stays as it was. When it succeeds,
    every reset and update call that follows addresses the group by the
    configured name attribute, also when the created name was made from the
    prefix; and the id of the result is the created name, or empty for a
    resource that is not new and was not found by the read. *)
Theorem resourceParameterGroupCreate_calls {W} (meta : AWSClient W)
    (d : ResourceData) (w : World W) (O N : list (string * string)) :
  d_parameter_old d = blocks O →
  d_parameter d = blocks N →
  let name := createName (helpers meta) (d_name d) (d_name_prefix d) in
  (∀ e r,
     CreateParameterGroupWithContext (MemoryDBConn meta) (createInput meta d) (remote w)
       = (inl e, r) →
     resourceParameterGroupCreate meta d w =
       (Some (d, diag.Errorf "error creating MemoryDB Parameter Group (%s): %s"
                   [FString name; FError e]),
        {| remote := r; calls := calls w ++ [CallCreate (createInput meta d)] |})) ∧
  (∀ group r,
     CreateParameterGroupWithContext (MemoryDBConn meta) (createInput meta d) (remote w)
       = (inr group, r) →
     ∃ result w' new,
       resourceParameterGroupCreate meta d w = (Some result, w') ∧
       calls w' = (calls w ++ [CallCreate (createInput meta d)]) ++ new ∧
       Forall (λ n, n = Some (d_name d)) (batchTargets new) ∧
       (Id (fst result) = name ∨ (Id (fst result) = "" ∧ IsNewResource d = false))).
Proof.
  intros HO HN. cbn zeta. split.
  - intros e r Hcreate.
    unfold resourceParameterGroupCreate, invoke, bind, ret. cbn zeta.
    fold (createInput meta d). by rewrite Hcreate.
  - intros group r Hcreate.
    unfold resourceParameterGroupCreate, invoke, bind, ret. cbn zeta.
    fold (createInput meta d). rewrite Hcreate.
    match goal with |- context [resourceParameterGroupUpdate meta ?d1 ?w1] =>
      destruct (resourceParameterGroupUpdate_targets meta d1 w1 O N)
        as (result & w' & new & Hrun & Hc & Htargets & Hid) end; [done|done|].
    exists result, w', new. split; [exact Hrun|]. split; [exact Hc|].
    split; [exact Htargets|exact Hid].
Qed.

Lemma resourceParameterGroupCreate_calls_witness :
  ∃ result w' new,
    resourceParameterGroupCreate scriptedClient prefixData freshWorld = (Some result, w') ∧
    calls w' = [CallCreate (createInput scriptedClient prefixData)] ++ new ∧
    InParameterGroupName (createInput scriptedClient prefixData) = Some "tf-" ∧
    Forall (λ n, n = Some "") (batchTargets new) ∧
    Id (fst result) = "tf-".
Proof.
  destruct (resourceParameterGroupCreate_calls scriptedClient prefixData freshWorld
              [] [("hz", "10")] eq_refl eq_refl) as [_ Hok].
  destruct (Hok scriptedGroup 0 eq_refl) as (result & w' & new & Hrun & Hc & Ht & Hid).
  exists result, w', new. split; [exact Hrun|]. split; [exact Hc|].
  split; [reflexivity|]. split; [exact Ht|].
  destruct Hid as [Hid|[_ Hnew]]; [exact Hid|discriminate Hnew].
Defined.

(** ** The set hash *)

(** X21. [ParameterHash] panics exactly on an element that is not a block
    with a string name and a string value, and it hashes the text
    [name-value-]: since names and values may hold hyphens themselves, two
    different parameters can share that text and so the hash, whatever the
    hash function is; the name [n-] with the value [v] and the name [n] with
    the value [-v] always do. *)
Theorem ParameterHash_text (StringHashcode : string → Z) :
  (∀ r, ParameterHash StringHashcode r = None ↔ isParamBlock r = false) ∧
  (∀ n v, ParameterHash StringHashcode (paramBlock n v)
          = Some (StringHashcode ((n +:+ "-") +:+ (v +:+ "-")))) ∧
  (∀ n v, paramBlock (n +:+ "-") v ≠ paramBlock n ("-" +:+ v) ∧
          ParameterHash StringHashcode (paramBlock (n +:+ "-") v)
          = ParameterHash StringHashcode (paramBlock n ("-" +:+ v))).
Proof.
  assert (Hblock : ∀ n v, ParameterHash StringHashcode (paramBlock n v)
                          = Some (StringHashcode ((n +:+ "-") +:+ (v +:+ "-")))).
  { intros n v. unfold ParameterHash, paramBlock. cbn.
    rewrite lookup_insert_eq. cbn.
    rewrite lookup_insert_ne, lookup_insert_eq by done. done. }
  assert (Happ : ∀ a b c : string, (a +:+ b) +:+ c = a +:+ (b +:+ c)).
  { intros a b c. induction a as [|x a IH]; [done|].
    change ((String x a +:+ b) +:+ c) with (String x ((a +:+ b) +:+ c)).
    change (String x a +:+ (b +:+ c)) with (String x (a +:+ (b +:+ c))).
    by rewrite IH. }
  assert (Hlen : ∀ a b : string,
             String.length (a +:+ b) = String.length a + String.length b).
  { intros a b. induction a as [|x a IH]; [done|].
    change (String.length (String x a +:+ b))
      with (S (String.length (a +:+ b))).
    by rewrite IH. }
  split; [|split].
  - intros r. unfold ParameterHash, isParamBlock.
    destruct r as [m|x]; cbn; [|done].
    destruct (m !! "name") as [[| k | |]|]; cbn; try done.
    destruct (m !! "value") as [[| v | |]|]; cbn; done.
  - exact Hblock.
  - intros n v. split.
    + unfold paramBlock. intros H.
      apply (f_equal (λ r, match r with
                           | RMap m => m !! "value"
                           | RScalar _ => None
                           end)) in H.
      assert (Hval : ∀ a b : string,
                 (<["name" := VString a]> (<["value" := VString b]> ∅)
                    : gmap string value) !! "value" = Some (VString b)).
      { intros a b. by rewrite lookup_insert_ne, lookup_insert_eq. }
      rewrite !Hval in H.
      assert (Hv : v = "-" +:+ v) by congruence.
      apply (f_equal String.length) in Hv.
      rewrite Hlen in Hv. cbn [String.length] in Hv. lia.
    + rewrite !Hblock. do 2 f_equal.
      by rewrite (Happ (n +:+ "-") "-" (v +:+ "-")), (Happ "-" v "-").
Qed.

(** ** Flattening and expanding *)

Lemma expandParameterNameValue_flatBlock rt i :
  expandParameterNameValue (flatBlock rt i) =
  Some {| ParameterName := Some (strings.ToLower (unicodeLower rt)
                                   (aws.StringValue (Name i)));
          ParameterValue := Some (aws.StringValue (Value i)) |}.
Proof.
  unfold expandParameterNameValue, flatBlock.
  rewrite lookup_insert_eq. cbn [assertString mbind option_bind].
  rewrite lookup_insert_ne, lookup_insert_eq by done. done.
Qed.

Lemma flattenParameters_elem rt lst m :
  m ∈ flattenParameters rt lst →
  ∃ i, i ∈ lst ∧ Value i ≠ None ∧ m = flatBlock rt i.
Proof.
  induction lst as [|i lst IH]; [by intros ?%elem_of_nil|].
  rewrite flattenParameters_cons.
  assert (Htail : m ∈ flattenParameters rt lst →
            ∃ j, j ∈ i :: lst ∧ Value j ≠ None ∧ m = flatBlock rt j).
  { intros (j & Hj & Hv & ->)%IH. exists j. split; [by right|done]. }
  destruct (Value i) eqn:Hv; [|exact Htail].
  intros [->|Hin]%elem_of_cons; [|by apply Htail].
  exists i. split; [by left|]. split; [by rewrite Hv|done].
Qed.

(** X22. What [flattenParameters] builds, [expandParameterNameValue] reads
    back without a panic: every flattened element is a block with a string
    name and a string value, it expands to the parameter it came from with
    the value unchanged and the name lowercased (a nil name becomes the empty
    name), and so neither [ParameterChanges] nor [ParameterHash] panics on
    flattened parameters, whatever the remote listing held. Flattening never
    lengthens the list. *)
Theorem flattenParameters_expandable (rt : GoRuntime) (lst : list Param)
    (ord : MapOrder) (StringHashcode : string → Z) :
  (∀ m, m ∈ flattenParameters rt lst →
        isParamBlock (RMap m) = true ∧
        is_Some (ParameterHash StringHashcode (RMap m)) ∧
        ∃ i, i ∈ lst ∧
             expandParameterNameValue m =
             Some {| ParameterName := Some (strings.ToLower (unicodeLower rt)
                                              (aws.StringValue (Name i)));
                     ParameterValue := Value i |}) ∧
  is_Some (ParameterChanges ord (ISet (RMap <$> flattenParameters rt lst)) INil) ∧
  is_Some (ParameterChanges ord INil (ISet (RMap <$> flattenParameters rt lst))) ∧
  length (flattenParameters rt lst) ≤ length lst.
Proof.
  assert (Hblock : ∀ r, r ∈ RMap <$> flattenParameters rt lst →
                        isParamBlock r = true).
  { intros r (m & -> & (i & _ & _ & ->)%flattenParameters_elem)%list_elem_of_fmap.
    unfold isParamBlock, flatBlock.
    rewrite lookup_insert_eq, lookup_insert_ne, lookup_insert_eq by done. done. }
  assert (Hexp : is_Some (expandInto (RMap <$> flattenParameters rt lst) ∅)).
  { destruct (expandInto (RMap <$> flattenParameters rt lst) ∅) eqn:E; [by eexists|].
    apply expandInto_None in E as (r & Hr & Hbad).
    rewrite (Hblock r Hr) in Hbad. discriminate Hbad. }
  destruct Hexp as [fm Hfm].
  split; [|split; [|split]].
  - intros m Hm. split; [|split].
    + apply Hblock, list_elem_of_fmap. by exists m.
    + apply flattenParameters_elem in Hm as (i & _ & _ & ->).
      unfold ParameterHash, flatBlock. cbn [assertMap mbind option_bind].
      rewrite lookup_insert_eq. cbn [assertString mbind option_bind].
      rewrite lookup_insert_ne, lookup_insert_eq by done. by eexists.
    + apply flattenParameters_elem in Hm as (i & Hi & Hv & ->).
      exists i. split; [exact Hi|].
      rewrite expandParameterNameValue_flatBlock.
      destruct (Value i); [done|by destruct Hv].
  - rewrite ParameterChanges_unfold. cbn [entriesOf expandInto].
    rewrite Hfm. by eexists.
  - rewrite ParameterChanges_unfold. cbn [entriesOf expandInto].
    rewrite Hfm. by eexists.
  - clear Hblock fm Hfm. induction lst as [|i lst IH]; [done|].
    rewrite flattenParameters_cons. cbn [length].
    destruct (Value i); cbn [length]; lia.
Qed.
